(** * The etcd coordination client and the reloadable credentials

    A shallow embedding of [etcd_client.go] (type [EtcdClient] with [load],
    [Close], [AddListener], [WaitForConnection], [Get], [Watch], ...) and of
    the two waiting operations of [reloadableCredentials] found in
    [grpc_common_test.go].

    Go strings are byte strings: they are [string] of the Standard Library.
    The observable effects of the code (log lines, calls into the etcd
    library, calls of listener and watcher hooks, the mutex, [go]
    statements, sleeping) are recorded in order in a trace of [event]s. *)

From Stdlib Require Import ZArith Ascii String.
From stdpp Require Import base numbers list strings gmap fin_maps.

Open Scope string_scope.
Open Scope list_scope.

(** ** Package [strings] *)

Module strings.

Definition byte_of (n : N) : ascii := ascii_of_N n.

(** [asciiSpace] of package [strings]: tab, newline, vertical tab, form
    feed, carriage return and space. *)
Definition asciiSpace (c : ascii) : bool :=
  let n := N_of_ascii c in
  ((9 <=? n) && (n <=? 13) || (n =? 32))%N.

(** The white space of [unicode.IsSpace] beyond ASCII, as the UTF-8
    encodings that decode to it: U+0085, U+00A0 (two bytes) and U+1680,
    U+2000..U+200A, U+2028, U+2029, U+202F, U+205F, U+3000 (three
    bytes). *)
Definition space2 (a b : ascii) : bool :=
  let x := N_of_ascii a in
  let y := N_of_ascii b in
  ((x =? 194) && ((y =? 133) || (y =? 160)))%N.

Definition space3 (a b c : ascii) : bool :=
  let x := N_of_ascii a in
  let y := N_of_ascii b in
  let z := N_of_ascii c in
  ((x =? 225) && (y =? 154) && (z =? 128)
   || (x =? 226) && (y =? 128)
      && ((128 <=? z) && (z <=? 138) || (z =? 168) || (z =? 169) || (z =? 175))
   || (x =? 226) && (y =? 129) && (z =? 159)
   || (x =? 227) && (y =? 128) && (z =? 128))%N.

(** Number of bytes of the white-space rune a byte list starts with,
    [0] when it starts with none. *)
Definition spaceWidth (l : list ascii) : nat :=
  match l with
  | a :: r =>
      if asciiSpace a then 1
      else match r with
           | b :: r' =>
               if space2 a b then 2
               else match r' with
                    | c :: _ => if space3 a b c then 3 else 0
                    | [] => 0
                    end
           | [] => 0
           end
  | [] => 0
  end.

(** The same, read from the end: the argument is the reversed string, so
    the last byte of the rune comes first. *)
Definition spaceWidthRev (l : list ascii) : nat :=
  match l with
  | a :: r =>
      if asciiSpace a then 1
      else match r with
           | b :: r' =>
               if space2 b a then 2
               else match r' with
                    | c :: _ => if space3 c b a then 3 else 0
                    | [] => 0
                    end
           | [] => 0
           end
  | [] => 0
  end.

(** Drop white-space runes from the front while there is one; the fuel
    bounds the number of runes dropped. *)
Fixpoint trimWith (width : list ascii → nat) (fuel : nat) (l : list ascii)
  : list ascii :=
  match fuel with
  | O => l
  | S fuel' =>
      match width l with
      | O => l
      | S w => trimWith width fuel' (drop (S w) l)
      end
  end.

Definition trimLeft (l : list ascii) : list ascii :=
  trimWith spaceWidth (length l) l.

Definition trimRight (l : list ascii) : list ascii :=
  reverse (trimWith spaceWidthRev (length l) (reverse l)).

(** [strings.TrimSpace]: the string without its leading and trailing
    white space, as Unicode defines it. *)
Definition TrimSpace (s : string) : string :=
  string_of_list_ascii (trimRight (trimLeft (list_ascii_of_string s))).

(** [strings.Split(s, sep)] for a separator of one byte, the only use the
    client makes of it: the substrings between the separators, one more
    than there are separators. *)
Fixpoint Split (s : string) (sep : ascii) : list string :=
  match s with
  | EmptyString => [EmptyString]
  | String c s' =>
      if Ascii.eqb c sep then EmptyString :: Split s' sep
      else match Split s' sep with
           | t :: ts => String c t :: ts
           | [] => [String c EmptyString]
           end
  end.

End strings.

Definition comma : ascii := Eval cbv in strings.byte_of 44.

Example Split_ex :
  strings.Split "10.0.0.1:2379, 10.0.0.2:2379 ,,x" comma
  = ["10.0.0.1:2379"; " 10.0.0.2:2379 "; EmptyString; "x"].
Proof. reflexivity. Qed.

Example TrimSpace_ex : strings.TrimSpace "  10.0.0.2:2379 " = "10.0.0.2:2379".
Proof. reflexivity. Qed.

(** ** Facts about [Split] and [TrimSpace] *)

Lemma Split_cons s sep : ∃ t ts, strings.Split s sep = t :: ts.
Proof.
  induction s as [|c s (t & ts & IH)]; simpl; [by eauto|].
  destruct (Ascii.eqb c sep); [by eauto|]. rewrite IH. by eauto.
Qed.

(** Joining the pieces with the separator gives the string back. *)
Lemma Split_concat s sep :
  String.concat (String sep EmptyString) (strings.Split s sep) = s.
Proof.
  induction s as [|c s IH]; [done|]. simpl.
  destruct (Split_cons s sep) as (t & ts & Hs). rewrite Hs in *.
  destruct (Ascii.eqb c sep) eqn:Hc.
  - apply Ascii.eqb_eq in Hc as ->. simpl in *. by rewrite IH.
  - simpl in *. destruct ts; simpl in *; by rewrite <- IH.
Qed.

Lemma trimWith_done width fuel l :
  width [] = 0%nat → (length l ≤ fuel)%nat →
  width (strings.trimWith width fuel l) = 0%nat.
Proof.
  intros Hnil. revert l. induction fuel as [|fuel IH]; intros l Hlen.
  - destruct l; [done|simpl in Hlen; lia].
  - simpl. destruct (width l) as [|n] eqn:Hw; [done|].
    apply IH. rewrite length_drop. lia.
Qed.

Lemma trimWith_drop width fuel l :
  ∃ n, strings.trimWith width fuel l = drop n l.
Proof.
  revert l. induction fuel as [|fuel IH]; intros l; [by exists 0%nat|].
  simpl. destruct (width l) as [|n]; [by exists 0%nat|].
  destruct (IH (drop (S n) l)) as [m ->]. rewrite drop_drop. by eauto.
Qed.

(** Cutting a string at its end uncovers no white space at its front. *)
Lemma spaceWidth_take n l :
  strings.spaceWidth l = 0%nat → strings.spaceWidth (take n l) = 0%nat.
Proof.
  destruct l as [|a [|b [|c l]]], n as [|[|[|n]]]; simpl; try done;
    destruct (strings.asciiSpace a); try done;
    destruct (strings.space2 a b); try done.
Qed.

(** The result of [TrimSpace] starts with no white space and ends with
    none. *)
Lemma TrimSpace_trimmed s :
  let t := list_ascii_of_string (strings.TrimSpace s) in
  strings.spaceWidth t = 0%nat ∧ strings.spaceWidthRev (reverse t) = 0%nat.
Proof.
  unfold strings.TrimSpace. rewrite list_ascii_of_string_of_list_ascii.
  set (l := strings.trimLeft (list_ascii_of_string s)).
  assert (strings.spaceWidth l = 0%nat) as Hl
    by (apply trimWith_done; [done|lia]).
  unfold strings.trimRight.
  destruct (trimWith_drop strings.spaceWidthRev (length l) (reverse l))
    as [n Hn].
  split.
  - rewrite Hn, drop_reverse, reverse_involutive. by apply spaceWidth_take.
  - rewrite reverse_involutive.
    apply trimWith_done; [done|]. by rewrite length_reverse.
Qed.

Example TrimSpace_unicode :
  strings.TrimSpace
    (String (strings.byte_of 194) (String (strings.byte_of 160)
       (String (strings.byte_of 9) ("a b"
          +:+ String (strings.byte_of 226) (String (strings.byte_of 128)
                (String (strings.byte_of 168) "
")))))) = "a b".
Proof. reflexivity. Qed.


(** ** Values of the collaborating packages *)

(** Go [error] values: [nil] is [None] of [option error]. *)
Inductive error : Type :=
| errors_New (msg : string)
| context_DeadlineExceeded
| fmt_Errorf_w (format : string) (args : list string) (inner : error).

(** [goconf.ConfigFile], through the one method the client calls:
    [GetString(section, option)] gives a value and an error. *)
Record ConfigFile : Type := {
  GetString : string → string → string * option error
}.

(** [transport.TLSInfo] with the three fields the client sets. *)
Record TLSInfo : Type := {
  CertFile : string;
  KeyFile : string;
  TrustedCAFile : string
}.

(** A [*tls.Config] built by [TLSInfo.ClientConfig]. *)
Record tls_Config : Type := { tls_info : TLSInfo }.

(** [time.Duration]: nanoseconds in a signed 64-bit integer. *)
Definition Duration : Type := Z.
Definition time_Second : Duration := 1000000000%Z.

Definition wrap64 (z : Z) : Z := ((z + 2 ^ 63) `mod` 2 ^ 64 - 2 ^ 63)%Z.

(** [clientv3.Config] with the fields the client sets; [TLS] is [nil]
    unless set. *)
Record clientv3_Config : Type := {
  Endpoints : list string;
  DialTimeout : Duration;
  TLS : option tls_Config
}.

(** A [*clientv3.Client]: the address of the object and the configuration it
    was created from. *)
Record Client : Type := {
  client_ptr : nat;
  client_cfg : clientv3_Config
}.

(** [srv.SRVClients]: the result of the DNS SRV lookup. *)
Record SRVClients : Type := { srv_Endpoints : list string }.

Inductive Context : Type :=
| context_Background
| context_Caller (id : nat)
| context_WithTimeout (parent : Context) (d : Duration)
| clientv3_WithRequireLeader (parent : Context).

Definition OpOption : Type := nat.

(** [mvccpb.Event]: the type is an [int32] enumeration with [PUT = 0] and
    [DELETE = 1]. *)
Record KeyValue : Type := { Key : string; Value : string }.
Record Event : Type := { Type_ : Z; Kv : KeyValue }.
Definition EventTypePut : Z := 0%Z.
Definition EventTypeDelete : Z := 1%Z.

(** [clientv3.WatchResponse]: [wr_Err] is what the method [Err()] gives. *)
Record WatchResponse : Type := {
  wr_Err : option error;
  Events : list Event
}.

Definition GetResponse : Type := list KeyValue.

(** An [EtcdClientListener] or [EtcdClientWatcher] interface value, by its
    identity. *)
Definition Listener : Type := nat.
Definition Watcher : Type := nat.

#[global] Instance error_eq_dec : EqDecision error.
Proof. solve_decision. Defined.
#[global] Instance TLSInfo_eq_dec : EqDecision TLSInfo.
Proof. solve_decision. Defined.
#[global] Instance tls_Config_eq_dec : EqDecision tls_Config.
Proof. solve_decision. Defined.
#[global] Instance clientv3_Config_eq_dec : EqDecision clientv3_Config.
Proof. solve_decision. Defined.
#[global] Instance Client_eq_dec : EqDecision Client.
Proof. solve_decision. Defined.
#[global] Instance Context_eq_dec : EqDecision Context.
Proof. solve_decision. Defined.

(** ** Effects *)

(** The lines written with [log.Printf], one constructor per call site. *)
Inductive logmsg : Type :=
| LogDeprecated (option_ section : string)
| LogNoEndpoints
| LogTLSDisabled (err : error)
| LogNewFailed (endpoints : list string) (err : error)
| LogUsing (endpoints : list string)
| LogSyncTimeout (waitDelay : Duration)
| LogSyncFailed (waitDelay : Duration) (err : error)
| LogSynced (endpoints : list string)
| LogWaitLeader (key : string)
| LogWatchCreated (key : string)
| LogUnsupported (type_ : Z) (key value : string).

#[global] Instance logmsg_eq_dec : EqDecision logmsg.
Proof. solve_decision. Defined.

Inductive event : Type :=
| EvLog (m : logmsg)
| EvSrvGetClient (service domain serviceName : string)
| EvClientConfig (info : TLSInfo)
| EvNew (cfg : clientv3_Config)
| EvClientClose (c : Client)
| EvStore (c : Client)
| EvLock
| EvUnlock
| EvEtcdClientCreated (l : Listener)
| EvGoEtcdClientCreated (l : Listener)
| EvSync (c : Client) (ctx : Context)
| EvSleep (d : Duration)
| EvGet (c : Client) (ctx : Context) (key : string) (opts : list OpOption)
| EvClientWatch (c : Client) (ctx : Context) (key : string) (opts : list OpOption)
| EvEtcdWatchCreated (w : Watcher) (key : string)
| EvEtcdKeyUpdated (w : Watcher) (key : string) (value : string)
| EvEtcdKeyDeleted (w : Watcher) (key : string).

#[global] Instance event_eq_dec : EqDecision event.
Proof. solve_decision. Defined.

(** What the world outside the client answers.  [client_Sync n] is the
    answer to the [n]-th call of [Sync] (counted from 0); [client_Endpoints]
    is the method [Endpoints()] of a client; [rangeKeys] is the
    order in which a [range] over a listener map visits its keys, some
    enumeration of the keys. *)
Record World : Type := {
  srv_GetClient : string → string → string → error + SRVClients;
  ClientConfig : TLSInfo → error + tls_Config;
  clientv3_New : clientv3_Config → option error;
  client_Close : Client → option error;
  client_Sync : nat → option error;
  client_Endpoints : Client → list string;
  client_Get : Client → Context → string → list OpOption
               → option GetResponse * option error;
  client_Watch : Client → Context → string → list OpOption
                 → list WatchResponse;
  rangeKeys : gmap Listener bool → list Listener;
  rangeKeys_perm : ∀ m, rangeKeys m ≡ₚ (map_to_list m).*1
}.

(** The fields of [EtcdClient]; the mutex [mu] shows as [EvLock] and
    [EvUnlock] in the trace.  [client] is the [atomic.Value], [None] while
    nothing was stored; [listeners] is [None] while the map is [nil]. *)
Record EtcdClient : Type := {
  compatSection : string;
  client : option Client;
  listeners : option (gmap Listener bool)
}.

(** The state a call runs in: the receiver, the trace so far, the next free
    address and the number of [Sync] calls made. *)
Record State : Type := {
  self : EtcdClient;
  trace : list event;
  heap : nat;
  syncs : nat
}.

(** A call returns a value or panics. *)
Inductive Res (A : Type) : Type :=
| Ret (a : A)
| Panic.
Arguments Ret {A} a.
Arguments Panic {A}.

Definition M (A : Type) : Type := State → Res A * State.

Definition ret {A} (a : A) : M A := λ s, (Ret a, s).

Definition bind {A B} (m : M A) (k : A → M B) : M B :=
  λ s, match m s with
       | (Ret a, s') => k a s'
       | (Panic, s') => (Panic, s')
       end.

Definition panic {A} : M A := λ s, (Panic, s).

#[global] Instance M_ret : MRet M := @ret.
#[global] Instance M_bind : MBind M := λ A B k m, bind m k.

Definition emit (e : event) : M unit :=
  λ s, (Ret tt, {| self := self s; trace := trace s ++ [e];
                   heap := heap s; syncs := syncs s |}).

Definition log_Printf (m : logmsg) : M unit := emit (EvLog m).

Definition getSelf : M EtcdClient := λ s, (Ret (self s), s).

Definition setSelf (c : EtcdClient) : M unit :=
  λ s, (Ret tt, {| self := c; trace := trace s;
                   heap := heap s; syncs := syncs s |}).

(** [new]: the next free address. *)
Definition alloc : M nat :=
  λ s, (Ret (heap s), {| self := self s; trace := trace s;
                         heap := S (heap s); syncs := syncs s |}).

Definition nextSync : M nat :=
  λ s, (Ret (syncs s), {| self := self s; trace := trace s;
                          heap := heap s; syncs := S (syncs s) |}).

(** ** [EtcdClient] *)

Definition isEmpty (s : string) : bool :=
  match s with
  | EmptyString => true
  | String _ _ => false
  end.

Section EtcdClient.

Variable world : World.

(** The constants of the retry loop, declared elsewhere in the package. *)
Variables initialWaitDelay maxWaitDelay : Duration.

Definition getConfigStringWithFallback (config : ConfigFile) (option_ : string)
  : M string :=
  c ← getSelf;
  let value := (GetString config "etcd" option_).1 in
  if isEmpty value && negb (isEmpty (compatSection c)) then
    let value := (GetString config (compatSection c) option_).1 in
    (if negb (isEmpty value)
     then log_Printf (LogDeprecated option_ (compatSection c))
     else mret tt);;
    mret value
  else mret value.

Definition getEtcdClient : M (option Client) :=
  c ← getSelf; mret (client c).

Definition client_Store (cl : Client) : M unit :=
  c ← getSelf;
  emit (EvStore cl);;
  setSelf {| compatSection := compatSection c; client := Some cl;
             listeners := listeners c |}.

(** A [range] over the listener map; ranging over a [nil] map runs the
    body no time. *)
Definition rangeListeners (m : option (gmap Listener bool)) : list Listener :=
  match m with
  | Some m => rangeKeys world m
  | None => []
  end.

Fixpoint forEach {A} (l : list A) (body : A → M unit) : M unit :=
  match l with
  | [] => mret tt
  | x :: l' => body x;; forEach l' body
  end.

Definition notifyListeners : M unit :=
  emit EvLock;;
  c ← getSelf;
  forEach (rangeListeners (listeners c))
          (λ listener, emit (EvEtcdClientCreated listener));;
  emit EvUnlock.

(** The body of the loop of [load] over the pieces of the endpoints string,
    and the loop. *)
Definition appendEndpoint (endpoints : list string) (ep : string)
  : list string :=
  let ep := strings.TrimSpace ep in
  if negb (isEmpty ep) then endpoints ++ [ep] else endpoints.

Definition splitEndpoints (endpointsString : string) : list string :=
  fold_left appendEndpoint (strings.Split endpointsString comma) [].

(** Lines 81 to 99 of [load], the [if] that fills [endpoints]: the
    endpoints ([inr]), or the error [load] returns at once ([inl]). *)
Definition resolveEndpoints (config : ConfigFile) (ignoreErrors : bool)
  : M (error + list string) :=
  endpointsString ← getConfigStringWithFallback config "endpoints";
  if negb (isEmpty endpointsString) then
    mret (inr (splitEndpoints endpointsString))
  else
    discoverySrv ← getConfigStringWithFallback config "discoverysrv";
    if negb (isEmpty discoverySrv) then
      discoveryService ← getConfigStringWithFallback config "discoveryservice";
      emit (EvSrvGetClient "etcd-client" discoverySrv discoveryService);;
      match srv_GetClient world "etcd-client" discoverySrv discoveryService with
      | inl err =>
          if negb ignoreErrors then
            mret (inl (fmt_Errorf_w "Could not discover etcd endpoints for %s: %w"
                                    [discoverySrv] err))
          else mret (inr [])
      | inr clients => mret (inr (srv_Endpoints clients))
      end
    else mret (inr []).

(** Lines 115 to 134 of [load]: the configuration with [TLS] set or not
    ([inr]), or the error [load] returns at once ([inl]). *)
Definition setupTLS (config : ConfigFile) (ignoreErrors : bool)
    (cfg : clientv3_Config) : M (error + clientv3_Config) :=
  clientKey ← getConfigStringWithFallback config "clientkey";
  clientCert ← getConfigStringWithFallback config "clientcert";
  caCert ← getConfigStringWithFallback config "cacert";
  if negb (isEmpty clientKey) && negb (isEmpty clientCert)
     && negb (isEmpty caCert) then
    let tlsInfo := {| CertFile := clientCert; KeyFile := clientKey;
                      TrustedCAFile := caCert |} in
    emit (EvClientConfig tlsInfo);;
    match ClientConfig world tlsInfo with
    | inl err =>
        if negb ignoreErrors then
          mret (inl (fmt_Errorf_w "Could not setup etcd TLS configuration: %w"
                                  [] err))
        else
          log_Printf (LogTLSDisabled err);;
          mret (inr cfg)
    | inr tlsConfig =>
        mret (inr {| Endpoints := Endpoints cfg;
                     DialTimeout := DialTimeout cfg;
                     TLS := Some tlsConfig |})
    end
  else mret (inr cfg).

Definition load (config : ConfigFile) (ignoreErrors : bool)
  : M (option error) :=
  r ← resolveEndpoints config ignoreErrors;
  match r with
  | inl err => mret (Some err)
  | inr endpoints =>
      if (length endpoints =? 0)%nat then
        if negb ignoreErrors then mret None
        else log_Printf LogNoEndpoints;; mret None
      else
        let cfg := {| Endpoints := endpoints; DialTimeout := time_Second;
                      TLS := None |} in
        r ← setupTLS config ignoreErrors cfg;
        match r with
        | inl err => mret (Some err)
        | inr cfg =>
            emit (EvNew cfg);;
            match clientv3_New world cfg with
            | Some err =>
                if negb ignoreErrors then mret (Some err)
                else log_Printf (LogNewFailed endpoints err);; mret None
            | None =>
                p ← alloc;
                let client := {| client_ptr := p; client_cfg := cfg |} in
                prev ← getEtcdClient;
                match prev with
                | Some prev => emit (EvClientClose prev)
                | None => mret tt
                end;;
                client_Store client;;
                log_Printf (LogUsing endpoints);;
                notifyListeners;;
                mret None
            end
        end
  end.

(** [NewEtcdClient]: a fresh [EtcdClient] is the receiver; the result is
    the error, [None] when the client is returned. *)
Definition NewEtcdClient (config : ConfigFile) (compatSection : string)
  : M (option error) :=
  setSelf {| compatSection := compatSection; client := None;
             listeners := None |};;
  load config false.

Definition Close : M (option error) :=
  client ← getEtcdClient;
  match client with
  | Some client => emit (EvClientClose client);; mret (client_Close world client)
  | None => mret None
  end.

Definition IsConfigured : M bool :=
  client ← getEtcdClient;
  mret (match client with Some _ => true | None => false end).

Definition syncClient : M (option error) :=
  let ctx := context_WithTimeout context_Background time_Second in
  client ← getEtcdClient;
  match client with
  | None => panic
  | Some client =>
      emit (EvSync client ctx);;
      n ← nextSync;
      mret (client_Sync world n)
  end.

Definition AddListener (listener : Listener) : M unit :=
  emit EvLock;;
  c ← getSelf;
  let m := match listeners c with
           | None => ∅
           | Some m => m
           end in
  setSelf {| compatSection := compatSection c; client := client c;
             listeners := Some (<[listener := true]> m) |};;
  client ← getEtcdClient;
  match client with
  | Some _ => emit (EvGoEtcdClientCreated listener)
  | None => mret tt
  end;;
  emit EvUnlock.

Definition RemoveListener (listener : Listener) : M unit :=
  emit EvLock;;
  c ← getSelf;
  setSelf {| compatSection := compatSection c; client := client c;
             listeners := delete listener <$> listeners c |};;
  emit EvUnlock.

(** The loop of [WaitForConnection], run for at most [fuel] attempts:
    [true] when the function returned, [false] when it is still looping
    after [fuel] attempts. *)
Fixpoint waitLoop (fuel : nat) (waitDelay : Duration) : M bool :=
  match fuel with
  | O => mret false
  | S fuel' =>
      err ← syncClient;
      match err with
      | Some err =>
          (if decide (err = context_DeadlineExceeded)
           then log_Printf (LogSyncTimeout waitDelay)
           else log_Printf (LogSyncFailed waitDelay err));;
          emit (EvSleep waitDelay);;
          let waitDelay := wrap64 (waitDelay * 2) in
          let waitDelay :=
            if (waitDelay >? maxWaitDelay)%Z then maxWaitDelay else waitDelay in
          waitLoop fuel' waitDelay
      | None =>
          client ← getEtcdClient;
          match client with
          | None => panic
          | Some client =>
              log_Printf (LogSynced (client_Endpoints world client));;
              mret true
          end
      end
  end.

Definition WaitForConnection (fuel : nat) : M bool :=
  waitLoop fuel initialWaitDelay.

Definition Get (ctx : Context) (key : string) (opts : list OpOption)
  : M (option GetResponse * option error) :=
  client ← getEtcdClient;
  match client with
  | None => panic
  | Some client =>
      emit (EvGet client ctx key opts);;
      mret (client_Get world client ctx key opts)
  end.

(** The body of the inner loop of [Watch]. *)
Definition dispatch (watcher : Watcher) (ev : Event) : M unit :=
  if (Type_ ev =? EventTypePut)%Z then
    emit (EvEtcdKeyUpdated watcher (Key (Kv ev)) (Value (Kv ev)))
  else if (Type_ ev =? EventTypeDelete)%Z then
    emit (EvEtcdKeyDeleted watcher (Key (Kv ev)))
  else
    log_Printf (LogUnsupported (Type_ ev) (Key (Kv ev)) (Value (Kv ev))).

(** [for response := range ch], for a channel that delivers [ch] and is
    closed then. *)
Fixpoint watchLoop (watcher : Watcher) (ch : list WatchResponse)
  : M (option error) :=
  match ch with
  | [] => mret None
  | response :: ch' =>
      match wr_Err response with
      | Some err => mret (Some err)
      | None =>
          forEach (Events response) (dispatch watcher);;
          watchLoop watcher ch'
      end
  end.

Definition Watch (ctx : Context) (key : string) (watcher : Watcher)
    (opts : list OpOption) : M (option error) :=
  log_Printf (LogWaitLeader key);;
  client ← getEtcdClient;
  match client with
  | None => panic
  | Some client =>
      let ctx' := clientv3_WithRequireLeader ctx in
      emit (EvClientWatch client ctx' key opts);;
      let ch := client_Watch world client ctx' key opts in
      log_Printf (LogWatchCreated key);;
      emit (EvEtcdWatchCreated watcher key);;
      watchLoop watcher ch
  end.

End EtcdClient.

(** ** [reloadableCredentials]

    The two loaders are not part of these sources: they appear through
    their method [WaitForReload], a function of the context. *)

Record CertificateLoader : Type := {
  cert_WaitForReload : Context → option error
}.

Record CertPoolLoader : Type := {
  pool_WaitForReload : Context → option error
}.

Record reloadableCredentials : Type := {
  loader : option CertificateLoader;
  pool : option CertPoolLoader
}.

Definition WaitForCertificateReload (c : reloadableCredentials) (ctx : Context)
  : option error :=
  match loader c with
  | None => Some (errors_New "no certificate loaded")
  | Some l => cert_WaitForReload l ctx
  end.

Definition WaitForCertPoolReload (c : reloadableCredentials) (ctx : Context)
  : option error :=
  match pool c with
  | None => Some (errors_New "no certificate pool loaded")
  | Some p => pool_WaitForReload p ctx
  end.

(** ** Reading a run *)

(** The state with more events at the end of its trace. *)
Definition addTrace (st : State) (es : list event) : State :=
  {| self := self st; trace := trace st ++ es;
     heap := heap st; syncs := syncs st |}.

(** The events a call added: those of [st'] after the ones of [st]. *)
Definition added (st st' : State) : list event :=
  drop (length (trace st)) (trace st').

Definition is_log (e : event) : bool :=
  match e with
  | EvLog _ => true
  | _ => false
  end.

(** The value of a configuration option as [getConfigStringWithFallback]
    reads it for a client with compatibility section [cs], and the line it
    logs. *)
Definition cfgValue (cs : string) (config : ConfigFile) (option_ : string)
  : string :=
  let value := (GetString config "etcd" option_).1 in
  if isEmpty value && negb (isEmpty cs)
  then (GetString config cs option_).1
  else value.

Definition cfgLog (cs : string) (config : ConfigFile) (option_ : string)
  : list event :=
  if isEmpty (GetString config "etcd" option_).1 && negb (isEmpty cs)
     && negb (isEmpty (GetString config cs option_).1)
  then [EvLog (LogDeprecated option_ cs)]
  else [].

Lemma addTrace_nil st : addTrace st [] = st.
Proof. destruct st; unfold addTrace; simpl. by rewrite app_nil_r. Qed.

Lemma addTrace_app st a b : addTrace (addTrace st a) b = addTrace st (a ++ b).
Proof. unfold addTrace; simpl. by rewrite app_assoc. Qed.

Lemma added_addTrace st es : added st (addTrace st es) = es.
Proof. unfold added, addTrace; simpl. by rewrite drop_app_length. Qed.

Lemma emit_run e st : emit e st = (Ret tt, addTrace st [e]).
Proof. reflexivity. Qed.

Lemma bind_run {A B} (m : M A) (k : A → M B) st a st' :
  m st = (Ret a, st') → (m ≫= k) st = k a st'.
Proof. intros H. unfold mbind, M_bind, bind. by rewrite H. Qed.

Lemma getConfigStringWithFallback_run config option_ st :
  getConfigStringWithFallback config option_ st
  = (Ret (cfgValue (compatSection (self st)) config option_),
     addTrace st (cfgLog (compatSection (self st)) config option_)).
Proof.
  unfold getConfigStringWithFallback, cfgValue, cfgLog.
  unfold mbind, M_bind, bind, getSelf, mret, M_ret, ret, log_Printf.
  destruct (isEmpty (GetString config "etcd" option_).1); simpl;
    [destruct (isEmpty (compatSection (self st))); simpl;
     [|destruct (isEmpty (GetString config _ option_).1); simpl] |];
    rewrite ?addTrace_nil; reflexivity.
Qed.

Lemma cfgLog_is_log cs config option_ :
  Forall (λ e, is_log e = true) (cfgLog cs config option_).
Proof. unfold cfgLog. case_match; repeat constructor. Qed.

(** ** What [load] decides, in the words of the specification *)

Section Decisions.

Variable w : World.
Variable cs : string.
Variable config : ConfigFile.

(** The endpoints in priority order: the explicit list, split on commas,
    trimmed and without its empty entries; else the SRV lookup; else
    none.  A failed lookup is [inl]. *)
Definition resolved : error + list string :=
  let endpointsString := cfgValue cs config "endpoints" in
  if negb (isEmpty endpointsString) then
    inr (filter (λ ep, ep ≠ EmptyString)
                (strings.TrimSpace <$> strings.Split endpointsString comma))
  else
    let discoverySrv := cfgValue cs config "discoverysrv" in
    if negb (isEmpty discoverySrv) then
      match srv_GetClient w "etcd-client" discoverySrv
              (cfgValue cs config "discoveryservice") with
      | inl err => inl err
      | inr clients => inr (srv_Endpoints clients)
      end
    else inr [].

(** The SRV lookup [load] makes: one when the explicit list is empty and a
    discovery domain is set, none otherwise. *)
Definition srvCalls : list event :=
  if isEmpty (cfgValue cs config "endpoints")
     && negb (isEmpty (cfgValue cs config "discoverysrv"))
  then [EvSrvGetClient "etcd-client" (cfgValue cs config "discoverysrv")
                       (cfgValue cs config "discoveryservice")]
  else [].

Definition resolveTrace : list event :=
  cfgLog cs config "endpoints"
  ++ (if negb (isEmpty (cfgValue cs config "endpoints")) then []
      else cfgLog cs config "discoverysrv"
           ++ (if negb (isEmpty (cfgValue cs config "discoverysrv"))
               then cfgLog cs config "discoveryservice" ++ srvCalls
               else [])).

(** The TLS material of the configuration: the three files when all three
    options are set. *)
Definition tlsFiles : option TLSInfo :=
  let clientKey := cfgValue cs config "clientkey" in
  let clientCert := cfgValue cs config "clientcert" in
  let caCert := cfgValue cs config "cacert" in
  if negb (isEmpty clientKey) && negb (isEmpty clientCert)
     && negb (isEmpty caCert)
  then Some {| CertFile := clientCert; KeyFile := clientKey;
               TrustedCAFile := caCert |}
  else None.

Definition tlsCalls : list event :=
  match tlsFiles with
  | Some info => [EvClientConfig info]
  | None => []
  end.

(** The error of building the TLS configuration, if it was built and
    failed. *)
Definition tlsError : option error :=
  match tlsFiles with
  | Some info =>
      match ClientConfig w info with
      | inl err => Some err
      | inr _ => None
      end
  | None => None
  end.

(** The TLS configuration of the client: set when the three files are
    given and parse. *)
Definition tlsEnabled : option tls_Config :=
  match tlsFiles with
  | Some info =>
      match ClientConfig w info with
      | inl _ => None
      | inr tlsConfig => Some tlsConfig
      end
  | None => None
  end.

Definition tlsTrace (ignoreErrors : bool) : list event :=
  cfgLog cs config "clientkey" ++ cfgLog cs config "clientcert"
  ++ cfgLog cs config "cacert" ++ tlsCalls
  ++ match tlsError with
     | Some err => if ignoreErrors then [EvLog (LogTLSDisabled err)] else []
     | None => []
     end.

End Decisions.

Lemma splitEndpoints_filter s :
  splitEndpoints s
  = filter (λ ep, ep ≠ EmptyString) (strings.TrimSpace <$> strings.Split s comma).
Proof.
  unfold splitEndpoints.
  enough (∀ l acc, fold_left appendEndpoint l acc
                   = acc ++ filter (λ ep, ep ≠ EmptyString) (strings.TrimSpace <$> l))
    as H by apply (H _ []).
  induction l as [|ep l IH]; intros acc; simpl.
  - by rewrite app_nil_r.
  - rewrite IH. unfold appendEndpoint.
    destruct (strings.TrimSpace ep) as [|c t] eqn:E; simpl.
    + rewrite filter_cons_False; [done | naive_solver].
    + rewrite filter_cons_True; [| done]. by rewrite <- app_assoc.
Qed.

(** Every endpoint of an explicit list is non-empty and has no white space
    at either end. *)
Lemma splitEndpoints_trimmed s :
  Forall (λ ep, ep ≠ EmptyString
                ∧ strings.spaceWidth (list_ascii_of_string ep) = 0%nat
                ∧ strings.spaceWidthRev (reverse (list_ascii_of_string ep))
                  = 0%nat)
         (splitEndpoints s).
Proof.
  rewrite splitEndpoints_filter. apply Forall_forall. intros ep Hin.
  apply list_elem_of_filter in Hin as [Hne Hin].
  apply list_elem_of_fmap in Hin as (piece & -> & _).
  split; [done|]. apply TrimSpace_trimmed.
Qed.

Lemma resolveEndpoints_run w config ignoreErrors st :
  let cs := compatSection (self st) in
  resolveEndpoints w config ignoreErrors st
  = (Ret match resolved w cs config with
         | inl err =>
             if ignoreErrors then inr []
             else inl (fmt_Errorf_w "Could not discover etcd endpoints for %s: %w"
                                    [cfgValue cs config "discoverysrv"] err)
         | inr endpoints => inr endpoints
         end,
     addTrace st (resolveTrace cs config)).
Proof.
  intros cs. unfold resolveEndpoints, resolved, resolveTrace, srvCalls.
  rewrite (bind_run _ _ _ _ _ (getConfigStringWithFallback_run _ _ _)).
  fold cs. destruct (isEmpty (cfgValue cs config "endpoints")) eqn:E1; simpl.
  - rewrite (bind_run _ _ _ _ _ (getConfigStringWithFallback_run _ _ _)).
    simpl. fold cs.
    destruct (isEmpty (cfgValue cs config "discoverysrv")) eqn:E2; simpl.
    + unfold mret, M_ret, ret. by rewrite addTrace_app, app_nil_r.
    + rewrite (bind_run _ _ _ _ _ (getConfigStringWithFallback_run _ _ _)).
      simpl. fold cs.
      unfold mbind, M_bind, bind. rewrite emit_run, !addTrace_app.
      destruct (srv_GetClient w _ _ _) as [err|clients];
        [destruct ignoreErrors|]; simpl; unfold mret, M_ret, ret;
        by rewrite <- ?app_assoc.
  - unfold mret, M_ret, ret. by rewrite splitEndpoints_filter, app_nil_r.
Qed.

Lemma setupTLS_run w config ignoreErrors cfg st :
  let cs := compatSection (self st) in
  setupTLS w config ignoreErrors cfg st
  = (Ret match tlsError w cs config with
         | Some err =>
             if ignoreErrors then inr cfg
             else inl (fmt_Errorf_w "Could not setup etcd TLS configuration: %w"
                                    [] err)
         | None =>
             inr match tlsEnabled w cs config with
                 | Some tlsConfig =>
                     {| Endpoints := Endpoints cfg;
                        DialTimeout := DialTimeout cfg;
                        TLS := Some tlsConfig |}
                 | None => cfg
                 end
         end,
     addTrace st (tlsTrace w cs config ignoreErrors)).
Proof.
  intros cs. unfold setupTLS, tlsTrace, tlsError, tlsEnabled, tlsCalls, tlsFiles.
  rewrite (bind_run _ _ _ _ _ (getConfigStringWithFallback_run _ _ _)).
  rewrite (bind_run _ _ _ _ _ (getConfigStringWithFallback_run _ _ _)).
  rewrite (bind_run _ _ _ _ _ (getConfigStringWithFallback_run _ _ _)).
  simpl. fold cs. rewrite !addTrace_app.
  destruct (negb (isEmpty (cfgValue cs config "clientkey"))
            && negb (isEmpty (cfgValue cs config "clientcert"))
            && negb (isEmpty (cfgValue cs config "cacert"))); simpl.
  - unfold mbind, M_bind, bind. rewrite emit_run, addTrace_app.
    destruct (ClientConfig w _) as [err|tlsConfig];
      [destruct ignoreErrors|]; simpl; unfold mret, M_ret, ret, log_Printf;
      rewrite ?emit_run, ?addTrace_app, <- ?app_assoc, ?app_nil_r; reflexivity.
  - unfold mret, M_ret, ret. by rewrite <- ?app_assoc, ?app_nil_r.
Qed.

Lemma forEach_emit {A} (f : A → event) (l : list A) st :
  forEach l (λ x, emit (f x)) st = (Ret tt, addTrace st (f <$> l)).
Proof.
  revert st. induction l as [|x l IH]; intros st; simpl.
  - unfold mret, M_ret, ret. by rewrite addTrace_nil.
  - unfold mbind, M_bind, bind. rewrite emit_run, IH, addTrace_app. reflexivity.
Qed.

Lemma notifyListeners_run w st :
  notifyListeners w st
  = (Ret tt,
     addTrace st ([EvLock]
                  ++ (EvEtcdClientCreated <$> rangeListeners w (listeners (self st)))
                  ++ [EvUnlock])).
Proof.
  unfold notifyListeners, mbind, M_bind, bind, getSelf.
  rewrite emit_run. simpl. rewrite forEach_emit, emit_run, !addTrace_app.
  reflexivity.
Qed.

(** Run the straight-line part of a monadic body. *)
Ltac run_steps :=
  repeat first
    [ rewrite emit_run
    | rewrite addTrace_app
    | rewrite addTrace_nil
    | rewrite <- app_assoc
    | progress unfold mbind, M_bind, bind, mret, M_ret, ret, log_Printf
    | progress cbn [negb] ].

(** ** The paths through [load] *)

Section Paths.

Variable w : World.
Variable config : ConfigFile.
Variable ignoreErrors : bool.
Variable st : State.

Let cs := compatSection (self st).

(** The endpoints [load] goes on with: none after a failed lookup. *)
Definition effective : list string :=
  match resolved w cs config with
  | inr endpoints => endpoints
  | inl _ => []
  end.

Definition newConfig : clientv3_Config :=
  {| Endpoints := effective; DialTimeout := time_Second;
     TLS := tlsEnabled w cs config |}.

Definition newClient : Client :=
  {| client_ptr := heap st; client_cfg := newConfig |}.

Definition closePrev : list event :=
  match client (self st) with
  | Some prev => [EvClientClose prev]
  | None => []
  end.

Definition notifications : list event :=
  EvEtcdClientCreated <$> rangeListeners w (listeners (self st)).

(** The five ways through [load], each with its result and final
    state. *)
Inductive load_path : Res (option error) * State → Prop :=
| path_discover_failed err :
    resolved w cs config = inl err →
    ignoreErrors = false →
    load_path
      (Ret (Some (fmt_Errorf_w "Could not discover etcd endpoints for %s: %w"
                               [cfgValue cs config "discoverysrv"] err)),
       addTrace st (resolveTrace cs config))
| path_no_endpoints :
    effective = [] →
    (∀ err, resolved w cs config = inl err → ignoreErrors = true) →
    load_path
      (Ret None,
       addTrace st (resolveTrace cs config
                    ++ if ignoreErrors then [EvLog LogNoEndpoints] else []))
| path_tls_failed err :
    effective ≠ [] →
    tlsError w cs config = Some err →
    ignoreErrors = false →
    load_path
      (Ret (Some (fmt_Errorf_w "Could not setup etcd TLS configuration: %w"
                               [] err)),
       addTrace st (resolveTrace cs config ++ tlsTrace w cs config false))
| path_new_failed err :
    effective ≠ [] →
    (is_Some (tlsError w cs config) → ignoreErrors = true) →
    clientv3_New w newConfig = Some err →
    load_path
      (Ret (if ignoreErrors then None else Some err),
       addTrace st (resolveTrace cs config
                    ++ tlsTrace w cs config ignoreErrors
                    ++ [EvNew newConfig]
                    ++ if ignoreErrors
                       then [EvLog (LogNewFailed effective err)] else []))
| path_installed :
    effective ≠ [] →
    (is_Some (tlsError w cs config) → ignoreErrors = true) →
    clientv3_New w newConfig = None →
    load_path
      (Ret None,
       {| self := {| compatSection := cs; client := Some newClient;
                     listeners := listeners (self st) |};
          trace := trace st
                   ++ resolveTrace cs config
                   ++ tlsTrace w cs config ignoreErrors
                   ++ [EvNew newConfig] ++ closePrev
                   ++ [EvStore newClient; EvLog (LogUsing effective); EvLock]
                   ++ notifications ++ [EvUnlock];
          heap := S (heap st);
          syncs := syncs st |}).

Lemma tlsError_tlsEnabled err :
  tlsError w cs config = Some err → tlsEnabled w cs config = None.
Proof.
  unfold tlsError, tlsEnabled. destruct (tlsFiles cs config); [|done].
  by destruct (ClientConfig w _).
Qed.

Ltac install_steps Heff :=
  unfold client_Store, getEtcdClient, getSelf, setSelf, alloc; run_steps;
  rewrite <- Heff;
  cbn -[notifyListeners app];
  destruct (client (self st));
  cbn -[notifyListeners app]; run_steps;
  rewrite notifyListeners_run;
  unfold addTrace; cbn [self listeners compatSection trace heap syncs];
  rewrite <- ?app_assoc; cbn [app] in *.

Lemma load_run : load_path (load w config ignoreErrors st).
Proof.
  unfold load.
  rewrite (bind_run _ _ _ _ _ (resolveEndpoints_run _ _ _ _)). fold cs.
  destruct (resolved w cs config) as [err|endpoints] eqn:Hres.
  - destruct ignoreErrors eqn:Hie.
    + cbn [length Nat.eqb negb]. run_steps.
      pose proof path_no_endpoints as P. rewrite Hie in P. apply P.
      * unfold effective. by rewrite Hres.
      * done.
    + apply path_discover_failed; done.
  - destruct endpoints as [|ep endpoints].
    + pose proof path_no_endpoints as P.
      destruct ignoreErrors; cbn [length Nat.eqb negb]; run_steps.
      * apply P; [unfold effective; by rewrite Hres | done].
      * rewrite <- (app_nil_r (resolveTrace cs config)).
        apply P; [unfold effective; by rewrite Hres | by rewrite Hres].
    + assert (Heff : effective = ep :: endpoints)
        by (unfold effective; by rewrite Hres).
      assert (Hne : effective ≠ []) by (by rewrite Heff).
      cbn [length Nat.eqb].
      rewrite (bind_run _ _ _ _ _ (setupTLS_run _ _ _ _ _)).
      cbn [self addTrace]. fold cs.
      assert (Hcfg : match tlsEnabled w cs config with
                     | Some tlsConfig =>
                         {| Endpoints := ep :: endpoints;
                            DialTimeout := time_Second;
                            TLS := Some tlsConfig |}
                     | None =>
                         {| Endpoints := ep :: endpoints;
                            DialTimeout := time_Second; TLS := None |}
                     end = newConfig)
        by (unfold newConfig; rewrite Heff;
            by destruct (tlsEnabled w cs config)).
      destruct (tlsError w cs config) as [err|] eqn:Hterr;
        [destruct ignoreErrors eqn:Hie;
         [|run_steps; apply path_tls_failed; done]|].
      all: try (rewrite (tlsError_tlsEnabled _ Hterr) in Hcfg).
      all: cbn [Endpoints DialTimeout]; rewrite Hcfg; clear Hcfg.
      all: fold (addTrace st (resolveTrace cs config)).
      all: run_steps.
      all: destruct (clientv3_New w newConfig) as [err'|] eqn:Hnew.
      * (* the TLS failure was tolerated, no client could be created *)
        run_steps. rewrite <- Heff.
        pose proof (path_new_failed err' Hne) as P.
        rewrite Hie, Hterr in P. apply P; done.
      * (* the TLS failure was tolerated, the client is installed *)
        pose proof (path_installed Hne) as P. rewrite Hie, Hterr in P.
        unfold closePrev, notifications, newClient in *. cbn [app] in P.
        install_steps Heff; apply P; done.
      * pose proof (path_new_failed err' Hne) as P. rewrite Hterr in P.
        destruct ignoreErrors; run_steps; rewrite <- ?Heff;
          (apply P; [by intros []|done]).
      * pose proof (path_installed Hne) as P. rewrite Hterr in P.
        unfold closePrev, notifications, newClient in *. cbn [app] in P.
        install_steps Heff; (apply P; [by intros []|done]).
Qed.

End Paths.

(** ** Concrete configurations and worlds *)

(** A configuration file from its [(section, option, value)] entries. *)
Definition configOf (entries : list (string * string * string)) : ConfigFile :=
  {| GetString := λ section option_,
       match list_find (λ e, bool_decide (e.1.1 = section ∧ e.1.2 = option_))
                       entries with
       | Some (_, e) => (e.2, None)
       | None => (EmptyString, Some (errors_New "option not found"))
       end |}.

(** A world where DNS has no SRV records, TLS files parse or not, clients
    can be created or not, [Sync] times out [syncFailures] times and a watch
    delivers [ch]. *)
Definition worldOf (tlsOk newOk : bool) (syncFailures : nat)
    (ch : list WatchResponse) : World :=
  {| srv_GetClient := λ _ _ _, inl (errors_New "no such host");
     ClientConfig := λ info,
       if tlsOk then inr {| tls_info := info |}
       else inl (errors_New "tls: failed to find any PEM data");
     clientv3_New := λ _,
       if newOk then None else Some (errors_New "etcdclient: no available endpoints");
     client_Close := λ _, None;
     client_Sync := λ n,
       if (n <? syncFailures)%nat then Some context_DeadlineExceeded else None;
     client_Endpoints := λ c, Endpoints (client_cfg c);
     client_Get := λ _ _ _ _, (Some [], None);
     client_Watch := λ _ _ _ _, ch;
     rangeKeys := λ m, (map_to_list m).*1;
     rangeKeys_perm := λ m, reflexivity _ |}.

Definition plainConfig : ConfigFile :=
  configOf [("etcd", "endpoints", "10.0.0.1:2379")].

Definition tlsConfigFile : ConfigFile :=
  configOf [("etcd", "endpoints", "10.0.0.1:2379");
            ("etcd", "clientkey", "client.key");
            ("etcd", "clientcert", "client.crt");
            ("etcd", "cacert", "ca.crt")].

Definition fresh : State :=
  {| self := {| compatSection := EmptyString; client := None; listeners := None |};
     trace := []; heap := 0; syncs := 0 |}.

(** A client without TLS is installed and two listeners are registered. *)
Definition plainClient : Client :=
  {| client_ptr := 0;
     client_cfg := {| Endpoints := ["10.0.0.1:2379"];
                      DialTimeout := time_Second; TLS := None |} |}.

Definition running : State :=
  {| self := {| compatSection := EmptyString; client := Some plainClient;
                listeners := Some {[ 7%nat := true; 9%nat := true ]} |};
     trace := []; heap := 1; syncs := 0 |}.

Definition tlsClient : Client :=
  {| client_ptr := 1;
     client_cfg :=
       {| Endpoints := ["10.0.0.1:2379"]; DialTimeout := time_Second;
          TLS := Some {| tls_info := {| CertFile := "client.crt";
                                        KeyFile := "client.key";
                                        TrustedCAFile := "ca.crt" |} |} |} |}.

Example load_fresh :
  load (worldOf true true 0 []) plainConfig false fresh
  = (Ret None,
     {| self := {| compatSection := EmptyString; client := Some plainClient;
                   listeners := None |};
        trace := [EvNew (client_cfg plainClient); EvStore plainClient;
                  EvLog (LogUsing ["10.0.0.1:2379"]); EvLock; EvUnlock];
        heap := 1; syncs := 0 |}).
Proof. reflexivity. Qed.

Example load_running_tls :
  added running (load (worldOf true true 0 []) tlsConfigFile true running).2
  = [EvClientConfig {| CertFile := "client.crt"; KeyFile := "client.key";
                       TrustedCAFile := "ca.crt" |};
     EvNew (client_cfg tlsClient);
     EvClientClose plainClient;
     EvStore tlsClient;
     EvLog (LogUsing ["10.0.0.1:2379"]);
     EvLock; EvEtcdClientCreated 9; EvEtcdClientCreated 7; EvUnlock].
Proof. vm_compute. reflexivity. Qed.

(** ** Facts about the traces of [load] *)

(** The events before a client is created: log lines and the calls that
    prepare the configuration. *)
Definition is_prep (e : event) : bool :=
  match e with
  | EvLog _ | EvSrvGetClient _ _ _ | EvClientConfig _ | EvNew _ => true
  | _ => false
  end.

(** The events that close a client or store one in the slot. *)
Definition touches_client (e : event) : bool :=
  match e with
  | EvClientClose _ | EvStore _ => true
  | _ => false
  end.

Lemma cfgLog_prep cs config option_ :
  Forall (λ e, is_prep e = true) (cfgLog cs config option_).
Proof. unfold cfgLog. case_match; repeat constructor. Qed.

Lemma resolveTrace_prep cs config :
  Forall (λ e, is_prep e = true) (resolveTrace cs config).
Proof.
  unfold resolveTrace, srvCalls.
  repeat first [ apply Forall_app; split | apply cfgLog_prep | case_match
               | by repeat constructor ].
Qed.

Lemma tlsTrace_prep w cs config ignoreErrors :
  Forall (λ e, is_prep e = true) (tlsTrace w cs config ignoreErrors).
Proof.
  unfold tlsTrace, tlsCalls.
  repeat first [ apply Forall_app; split | apply cfgLog_prep | case_match
               | by repeat constructor ].
Qed.

Ltac solve_prep :=
  repeat first
    [ apply resolveTrace_prep
    | apply tlsTrace_prep
    | apply cfgLog_prep
    | apply Forall_app; split
    | by repeat constructor
    | match goal with |- context [if ?b then _ else _] => destruct b end ].

Lemma prep_not_touching (es : list event) :
  Forall (λ e, is_prep e = true) es →
  Forall (λ e, touches_client e = false) es.
Proof. intros H. eapply Forall_impl; [exact H|]. by intros []. Qed.


(** ** Replacing the client *)


Lemma added_record st c es h n :
  added st {| self := c; trace := trace st ++ es; heap := h; syncs := n |} = es.
Proof. unfold added; simpl. by rewrite drop_app_length. Qed.




(** ** Watching a key *)

(** What the specification says of a watch, on the responses of the
    stream: the responses before the first one that carries an error, that
    error, and the hook an event is relayed to. *)
Fixpoint beforeError (ch : list WatchResponse) : list WatchResponse :=
  match ch with
  | [] => []
  | response :: ch' =>
      match wr_Err response with
      | Some _ => []
      | None => response :: beforeError ch'
      end
  end.

Fixpoint firstError (ch : list WatchResponse) : option error :=
  match ch with
  | [] => None
  | response :: ch' =>
      match wr_Err response with
      | Some err => Some err
      | None => firstError ch'
      end
  end.

Definition hookOf (watcher : Watcher) (ev : Event) : option event :=
  if decide (Type_ ev = EventTypePut) then
    Some (EvEtcdKeyUpdated watcher (Key (Kv ev)) (Value (Kv ev)))
  else if decide (Type_ ev = EventTypeDelete) then
    Some (EvEtcdKeyDeleted watcher (Key (Kv ev)))
  else None.

(** The calls of watcher hooks in a trace. *)
Definition is_hook (e : event) : bool :=
  match e with
  | EvEtcdWatchCreated _ _ | EvEtcdKeyUpdated _ _ _ | EvEtcdKeyDeleted _ _ => true
  | _ => false
  end.

Definition hooks (es : list event) : list event :=
  filter (λ e, is_hook e = true) es.

(** The events of one dispatch, the log line of a dropped event
    included. *)
Definition relayEvent (watcher : Watcher) (ev : Event) : list event :=
  match hookOf watcher ev with
  | Some e => [e]
  | None => [EvLog (LogUnsupported (Type_ ev) (Key (Kv ev)) (Value (Kv ev)))]
  end.

Definition relayAll (watcher : Watcher) (ch : list WatchResponse)
  : list event :=
  concat (relayEvent watcher <$> concat (Events <$> beforeError ch)).

Lemma dispatch_run watcher ev st :
  dispatch watcher ev st = (Ret tt, addTrace st (relayEvent watcher ev)).
Proof.
  unfold dispatch, relayEvent, hookOf, EventTypePut, EventTypeDelete.
  destruct (Z.eqb_spec (Type_ ev) 0) as [->|Hput].
  - reflexivity.
  - rewrite decide_False by done.
    destruct (Z.eqb_spec (Type_ ev) 1) as [->|Hdel].
    + reflexivity.
    + rewrite decide_False by done. reflexivity.
Qed.

Lemma forEach_dispatch watcher evs st :
  forEach evs (dispatch watcher) st
  = (Ret tt, addTrace st (concat (relayEvent watcher <$> evs))).
Proof.
  revert st. induction evs as [|ev evs IH]; intros st; simpl.
  - run_steps. reflexivity.
  - unfold mbind, M_bind, bind. rewrite dispatch_run, IH, addTrace_app.
    reflexivity.
Qed.

Lemma watchLoop_run watcher ch st :
  watchLoop watcher ch st
  = (Ret (firstError ch), addTrace st (relayAll watcher ch)).
Proof.
  unfold relayAll. revert st.
  induction ch as [|response ch IH]; intros st; simpl.
  - run_steps. reflexivity.
  - destruct (wr_Err response) as [err|]; simpl.
    + run_steps. reflexivity.
    + unfold mbind, M_bind, bind.
      rewrite forEach_dispatch, IH, addTrace_app.
      by rewrite fmap_app, concat_app.
Qed.

Lemma hooks_relayEvent watcher evs :
  hooks (concat (relayEvent watcher <$> evs)) = omap (hookOf watcher) evs.
Proof.
  unfold hooks. induction evs as [|ev evs IH]; csimpl; [done|].
  rewrite filter_app, IH. unfold relayEvent.
  destruct (hookOf watcher ev) as [e|] eqn:He; [|done].
  rewrite filter_cons_True; [done|].
  unfold hookOf in He. repeat case_decide; by simplify_eq.
Qed.

(** A watch relays as it goes: the events relayed for the first responses
    of a stream are the first ones relayed for the whole stream. *)
Lemma relayAll_prefix watcher ch ch' :
  relayAll watcher ch `prefix_of` relayAll watcher (ch ++ ch').
Proof.
  unfold relayAll. induction ch as [|response ch IH]; simpl.
  - apply prefix_nil.
  - destruct (wr_Err response); simpl; [apply prefix_nil|].
    rewrite !fmap_app, !concat_app. by apply prefix_app.
Qed.

(** C2: with a client installed, [Watch] opens the leader-required watch,
    calls [EtcdWatchCreated] once and first, then relays the events of the
    responses that come before the first error, in their order: a Put to
    [EtcdKeyUpdated] with key and value, a Delete to [EtcdKeyDeleted] with
    the key, any other type to no hook; it returns the first error of the
    stream, or [nil] when the stream ends without one. *)
Theorem Watch_relays w st cl ctx key watcher opts :
  client (self st) = Some cl →
  let ctx' := clientv3_WithRequireLeader ctx in
  let ch := client_Watch w cl ctx' key opts in
  let es := [EvLog (LogWaitLeader key); EvClientWatch cl ctx' key opts;
             EvLog (LogWatchCreated key); EvEtcdWatchCreated watcher key]
            ++ relayAll watcher ch in
  Watch w ctx key watcher opts st = (Ret (firstError ch), addTrace st es)
  ∧ hooks es
    = EvEtcdWatchCreated watcher key
      :: omap (hookOf watcher) (concat (Events <$> beforeError ch)).
Proof.
  intros Hcl ctx' ch es. split.
  - unfold Watch, getEtcdClient, getSelf. run_steps. cbn [self addTrace].
    rewrite Hcl. run_steps. fold ctx' ch.
    rewrite watchLoop_run, addTrace_app. reflexivity.
  - unfold es, relayAll. unfold hooks at 1. rewrite filter_app.
    fold (hooks (concat (relayEvent watcher
                           <$> concat (Events <$> beforeError ch)))).
    rewrite hooks_relayEvent. reflexivity.
Qed.

(** A stream of three responses: a Put, an event of type 7 and a Delete;
    then a response with an error; then a Put that is never relayed. *)
Definition stream : list WatchResponse :=
  [ {| wr_Err := None;
       Events := [ {| Type_ := EventTypePut;
                      Kv := {| Key := "/a"; Value := "1" |} |};
                   {| Type_ := 7; Kv := {| Key := "/b"; Value := "2" |} |};
                   {| Type_ := EventTypeDelete;
                      Kv := {| Key := "/a"; Value := EmptyString |} |} ] |};
    {| wr_Err := Some (errors_New "etcdserver: no leader");
       Events := [ {| Type_ := EventTypePut;
                      Kv := {| Key := "/c"; Value := "3" |} |} ] |};
    {| wr_Err := None;
       Events := [ {| Type_ := EventTypePut;
                      Kv := {| Key := "/d"; Value := "4" |} |} ] |} ].

Lemma Watch_relays_witness :
  client (self running) = Some plainClient
  ∧ Watch (worldOf true true 0 stream) (context_Caller 1) "/" 5 [] running
    = (Ret (Some (errors_New "etcdserver: no leader")),
       addTrace running
         [EvLog (LogWaitLeader "/");
          EvClientWatch plainClient
            (clientv3_WithRequireLeader (context_Caller 1)) "/" [];
          EvLog (LogWatchCreated "/");
          EvEtcdWatchCreated 5 "/";
          EvEtcdKeyUpdated 5 "/a" "1";
          EvLog (LogUnsupported 7 "/b" "2");
          EvEtcdKeyDeleted 5 "/a"])
  ∧ hooks [EvLog (LogWaitLeader "/");
           EvClientWatch plainClient
             (clientv3_WithRequireLeader (context_Caller 1)) "/" [];
           EvLog (LogWatchCreated "/");
           EvEtcdWatchCreated 5 "/";
           EvEtcdKeyUpdated 5 "/a" "1";
           EvLog (LogUnsupported 7 "/b" "2");
           EvEtcdKeyDeleted 5 "/a"]
    = [EvEtcdWatchCreated 5 "/"; EvEtcdKeyUpdated 5 "/a" "1";
       EvEtcdKeyDeleted 5 "/a"].
Proof.
  split; [reflexivity|].
  exact (Watch_relays (worldOf true true 0 stream) running plainClient
           (context_Caller 1) "/" 5%nat [] eq_refl).
Defined.

(** ** Which calls a run of [load] made *)

Section Calls.

Variable w : World.
Variable cs : string.
Variable config : ConfigFile.

Lemma in_cfgLog e option_ : e ∈ cfgLog cs config option_ → is_log e = true.
Proof.
  intros H. pose proof (cfgLog_is_log cs config option_) as F.
  rewrite Forall_forall in F. by apply F.
Qed.

Lemma in_resolveTrace e :
  e ∈ resolveTrace cs config → is_log e = true ∨ e ∈ srvCalls cs config.
Proof.
  unfold resolveTrace. rewrite elem_of_app. intros [H|H].
  - left. by eapply in_cfgLog.
  - destruct (negb (isEmpty (cfgValue cs config "endpoints")));
      [by apply elem_of_nil in H|].
    rewrite elem_of_app in H. destruct H as [H|H];
      [left; by eapply in_cfgLog|].
    destruct (negb (isEmpty (cfgValue cs config "discoverysrv")));
      [|by apply elem_of_nil in H].
    rewrite elem_of_app in H. destruct H as [H|H];
      [left; by eapply in_cfgLog | by right].
Qed.

Lemma in_tlsTrace e ignoreErrors :
  e ∈ tlsTrace w cs config ignoreErrors →
  is_log e = true ∨ e ∈ tlsCalls cs config.
Proof.
  unfold tlsTrace. rewrite !elem_of_app.
  intros [H|[H|[H|[H|H]]]]; try (left; by eapply in_cfgLog); [by right|].
  left. destruct (tlsError w cs config); [destruct ignoreErrors|];
    try by apply elem_of_nil in H.
  apply list_elem_of_singleton in H. by subst.
Qed.

(** The lookup [load] makes is the one that decides [resolved]. *)
Lemma in_srvCalls a b c :
  EvSrvGetClient a b c ∈ srvCalls cs config →
  a = "etcd-client" ∧ b = cfgValue cs config "discoverysrv"
  ∧ resolved w cs config
    = match srv_GetClient w a b c with
      | inl err => inl err
      | inr clients => inr (srv_Endpoints clients)
      end.
Proof.
  unfold srvCalls, resolved.
  destruct (isEmpty (cfgValue cs config "endpoints")); simpl;
    [|by intros ?%elem_of_nil].
  destruct (isEmpty (cfgValue cs config "discoverysrv")); simpl;
    [by intros ?%elem_of_nil|].
  intros H%list_elem_of_singleton. by simplify_eq.
Qed.

Lemma in_tlsCalls info :
  EvClientConfig info ∈ tlsCalls cs config → tlsFiles cs config = Some info.
Proof.
  unfold tlsCalls. destruct (tlsFiles cs config);
    [|by intros ?%elem_of_nil].
  intros H%list_elem_of_singleton. by simplify_eq.
Qed.

Lemma tlsFiles_error info err :
  tlsFiles cs config = Some info → ClientConfig w info = inl err →
  tlsError w cs config = Some err.
Proof. intros H1 H2. unfold tlsError. by rewrite H1, H2. Qed.

End Calls.

(** Take apart a hypothesis that an event is in the trace of [load]. *)
Ltac split_in :=
  repeat match goal with
    | H : _ ∈ _ ++ _ |- _ => apply elem_of_app in H; destruct H as [H|H]
    | H : _ ∈ _ :: _ |- _ => apply elem_of_cons in H; destruct H as [H|H]
    | H : _ ∈ [] |- _ => by apply elem_of_nil in H
    | H : _ ∈ resolveTrace _ _ |- _ =>
        apply in_resolveTrace in H; destruct H as [H|H]
    | H : _ ∈ tlsTrace _ _ _ _ |- _ =>
        apply in_tlsTrace in H; destruct H as [H|H]
    | H : _ ∈ notifications _ _ |- _ =>
        apply list_elem_of_fmap in H; destruct H as (? & ? & ?)
    | H : _ ∈ closePrev _ |- _ =>
        unfold closePrev in H; destruct (client (self _))
    | H : _ ∈ (if ?b then _ else _) |- _ => destruct b
    | H : is_log _ = true |- _ => by simpl in H
    | H : @eq event _ _ |- _ => discriminate H
    | H : @eq event _ _ |- _ => injection H as ?; subst
    | H : EvSrvGetClient _ _ _ ∈ tlsCalls _ _ |- _ =>
        unfold tlsCalls in H; destruct (tlsFiles _ _)
    | H : EvNew _ ∈ tlsCalls _ _ |- _ =>
        unfold tlsCalls in H; destruct (tlsFiles _ _)
    | H : EvClientConfig _ ∈ srvCalls _ _ |- _ =>
        unfold srvCalls in H
    | H : EvNew _ ∈ srvCalls _ _ |- _ =>
        unfold srvCalls in H
    | H : EvStore _ ∈ tlsCalls _ _ |- _ =>
        unfold tlsCalls in H; destruct (tlsFiles _ _)
    | H : EvStore _ ∈ srvCalls _ _ |- _ =>
        unfold srvCalls in H
    end.

Ltac in_calls := intros; split_in; done.

(** A call that is not in the trace cannot have failed. *)
Ltac no_call H :=
  first [ destruct H as (? & ? & H & ?)
        | destruct H as (? & H & ?)
        | destruct H as [H ?] ];
  split_in; done.

(** ** Errors of [load] *)

(** The calls of a run that failed. *)
Definition srv_failed (w : World) (es : list event) (domain : string)
    (err : error) : Prop :=
  ∃ service name,
    EvSrvGetClient service domain name ∈ es
    ∧ srv_GetClient w service domain name = inl err.

Definition tls_failed (w : World) (es : list event) (err : error) : Prop :=
  ∃ info, EvClientConfig info ∈ es ∧ ClientConfig w info = inl err.

Definition new_failed (w : World) (es : list event) (cfg : clientv3_Config)
    (err : error) : Prop :=
  EvNew cfg ∈ es ∧ clientv3_New w cfg = Some err.

(** The receiver is as it was and no client was closed or stored. *)
Definition untouched (st st' : State) : Prop :=
  self st' = self st
  ∧ Forall (λ e, touches_client e = false) (added st st').

Section ErrorPolicy.

Variable w : World.
Variable config : ConfigFile.
Variable st : State.

Let cs := compatSection (self st).

Lemma srv_failed_resolved es domain err :
  (∀ a b c, EvSrvGetClient a b c ∈ es →
            EvSrvGetClient a b c ∈ srvCalls cs config) →
  srv_failed w es domain err →
  domain = cfgValue cs config "discoverysrv"
  ∧ resolved w cs config = inl err.
Proof.
  intros Hes (a & c & Hin & Hfail).
  apply Hes, (in_srvCalls w) in Hin as (_ & -> & ->). by rewrite Hfail.
Qed.

Lemma tls_failed_error es err :
  (∀ info, EvClientConfig info ∈ es →
           EvClientConfig info ∈ tlsCalls cs config) →
  tls_failed w es err →
  tlsError w cs config = Some err.
Proof.
  intros Hes (info & Hin & Hfail).
  apply Hes, in_tlsCalls in Hin. by eapply tlsFiles_error.
Qed.

Lemma tlsError_logged err :
  tlsError w cs config = Some err →
  EvLog (LogTLSDisabled err) ∈ tlsTrace w cs config true.
Proof.
  intros H. unfold tlsTrace. rewrite H, !elem_of_app.
  do 4 right. by apply list_elem_of_singleton.
Qed.

Lemma untouched_addTrace es :
  Forall (λ e, is_prep e = true) es → untouched st (addTrace st es).
Proof.
  intros H. split; [done|]. rewrite added_addTrace.
  by apply prep_not_touching.
Qed.

Lemma effective_inl err :
  resolved w cs config = inl err → effective w config st = [].
Proof. unfold effective. fold cs. by intros ->. Qed.

End ErrorPolicy.

(** C3, as the code has it.  With [ignoreErrors = false] a failed SRV
    lookup, a failed TLS configuration and a failed client creation are
    each returned to the caller, the first two wrapped, and the receiver is
    untouched.  With [ignoreErrors = true] the result is always [nil]; after
    a failed SRV lookup or a failed client creation a line is logged and
    the receiver is untouched; after a failed TLS configuration the failure
    is logged and the client is created without TLS, and installed when
    that creation succeeds. *)
Theorem load_error_policy w config ignoreErrors st r st' :
  load w config ignoreErrors st = (r, st') →
  let es := added st st' in
  if ignoreErrors then
    r = Ret None
    ∧ (∀ domain err, srv_failed w es domain err →
         untouched st st' ∧ EvLog LogNoEndpoints ∈ es)
    ∧ (∀ cfg err, new_failed w es cfg err →
         untouched st st' ∧ EvLog (LogNewFailed (Endpoints cfg) err) ∈ es)
    ∧ (∀ err, tls_failed w es err →
         EvLog (LogTLSDisabled err) ∈ es
         ∧ ∃ cfg, EvNew cfg ∈ es ∧ TLS cfg = None
                  ∧ (clientv3_New w cfg = None →
                     client (self st')
                     = Some {| client_ptr := heap st; client_cfg := cfg |}))
  else
    (∀ domain err, srv_failed w es domain err →
       r = Ret (Some (fmt_Errorf_w "Could not discover etcd endpoints for %s: %w"
                                   [domain] err))
       ∧ untouched st st')
    ∧ (∀ err, tls_failed w es err →
         r = Ret (Some (fmt_Errorf_w "Could not setup etcd TLS configuration: %w"
                                     [] err))
         ∧ untouched st st')
    ∧ (∀ cfg err, new_failed w es cfg err →
         r = Ret (Some err) ∧ untouched st st').
Proof.
  intros Hload es.
  pose proof (load_run w config ignoreErrors st) as P. rewrite Hload in P.
  inversion P as [err Hres Hie Hr|Heff Hie Hr|err Heff Hterr Hie Hr
                 |err Heff Hie Hnew Hr|Heff Hie Hnew Hr];
    subst r st'; try subst ignoreErrors; unfold es;
    rewrite ?added_addTrace, ?added_record.
  - (* the SRV lookup failed and the error is returned *)
    split; [|split].
    + intros domain err0 H.
      apply (srv_failed_resolved w config st) in H as [-> Hr']; [|in_calls].
      split; [congruence|]. apply untouched_addTrace. solve_prep.
    + intros err0 H. no_call H.
    + intros cfg err0 H. no_call H.
  - (* no endpoints *)
    destruct ignoreErrors.
    + split; [done|]. split; [|split].
      * intros domain err0 H. split.
        -- apply untouched_addTrace. solve_prep.
        -- apply elem_of_app. right. by apply list_elem_of_singleton.
      * intros cfg err0 H. no_call H.
      * intros err0 H. no_call H.
    + split; [|split].
      * intros domain err0 H.
        apply (srv_failed_resolved w config st) in H as [-> Hr']; [|in_calls].
        by apply Hie in Hr'.
      * intros err0 H. no_call H.
      * intros cfg err0 H. no_call H.
  - (* the TLS configuration failed and the error is returned *)
    split; [|split].
    + intros domain err0 H.
      apply (srv_failed_resolved w config st) in H as [-> Hr']; [|in_calls].
      by apply effective_inl in Hr'.
    + intros err0 H.
      apply (tls_failed_error w config st) in H; [|in_calls].
      split; [congruence|]. apply untouched_addTrace. solve_prep.
    + intros cfg err0 H. no_call H.
  - (* no client could be created *)
    destruct ignoreErrors.
    + split; [done|]. split; [|split].
      * intros domain err0 H.
        apply (srv_failed_resolved w config st) in H as [-> Hr']; [|in_calls].
        by apply effective_inl in Hr'.
      * intros cfg err0 [Hin Hfail].
        assert (cfg = newConfig w config st) as -> by (split_in; done).
        assert (err0 = err) as -> by congruence.
        split; [apply untouched_addTrace; solve_prep|].
        rewrite !elem_of_app. do 2 right. right. by apply list_elem_of_singleton.
      * intros err0 H.
        apply (tls_failed_error w config st) in H; [|in_calls].
        split.
        -- rewrite !elem_of_app. right. left. by apply tlsError_logged.
        -- exists (newConfig w config st). split; [|split].
           ++ rewrite !elem_of_app. do 2 right. apply elem_of_cons. by left.
           ++ by apply tlsError_tlsEnabled in H.
           ++ congruence.
    + split; [|split].
      * intros domain err0 H.
        apply (srv_failed_resolved w config st) in H as [-> Hr']; [|in_calls].
        by apply effective_inl in Hr'.
      * intros err0 H.
        apply (tls_failed_error w config st) in H; [|in_calls].
        by discriminate Hie.
      * intros cfg err0 [Hin Hfail].
        assert (cfg = newConfig w config st) as -> by (split_in; done).
        split; [congruence|]. apply untouched_addTrace. solve_prep.
  - (* the new client is installed *)
    destruct ignoreErrors.
    + split; [done|]. split; [|split].
      * intros domain err0 H.
        apply (srv_failed_resolved w config st) in H as [-> Hr']; [|in_calls].
        by apply effective_inl in Hr'.
      * intros cfg err0 [Hin Hfail].
        assert (cfg = newConfig w config st) as -> by (split_in; done).
        congruence.
      * intros err0 H.
        apply (tls_failed_error w config st) in H; [|in_calls].
        split.
        -- rewrite !elem_of_app. right. left. by apply tlsError_logged.
        -- exists (newConfig w config st). split; [|split].
           ++ rewrite !elem_of_app. do 2 right. apply elem_of_cons. by left.
           ++ by apply tlsError_tlsEnabled in H.
           ++ done.
    + split; [|split].
      * intros domain err0 H.
        apply (srv_failed_resolved w config st) in H as [-> Hr']; [|in_calls].
        by apply effective_inl in Hr'.
      * intros err0 H.
        apply (tls_failed_error w config st) in H; [|in_calls].
        by discriminate Hie.
      * intros cfg err0 [Hin Hfail].
        assert (cfg = newConfig w config st) as -> by (split_in; done).
        congruence.
Qed.

(** A reload whose TLS files do not parse: the failure is logged, the
    client is created without TLS and replaces the installed one. *)
Definition pemError : error := errors_New "tls: failed to find any PEM data".

Definition replacement : Client :=
  {| client_ptr := 1;
     client_cfg := {| Endpoints := ["10.0.0.1:2379"];
                      DialTimeout := time_Second; TLS := None |} |}.

Example load_running_bad_tls :
  load (worldOf false true 0 []) tlsConfigFile true running
  = (Ret None,
     {| self := {| compatSection := EmptyString; client := Some replacement;
                   listeners := listeners (self running) |};
        trace := [EvClientConfig {| CertFile := "client.crt";
                                    KeyFile := "client.key";
                                    TrustedCAFile := "ca.crt" |};
                  EvLog (LogTLSDisabled pemError);
                  EvNew (client_cfg replacement);
                  EvClientClose plainClient;
                  EvStore replacement;
                  EvLog (LogUsing ["10.0.0.1:2379"]);
                  EvLock; EvEtcdClientCreated 9; EvEtcdClientCreated 7;
                  EvUnlock];
        heap := 2; syncs := 0 |}).
Proof. vm_compute. reflexivity. Qed.

Lemma bad_tls_failed :
  tls_failed (worldOf false true 0 [])
    (added running
       (load (worldOf false true 0 []) tlsConfigFile true running).2)
    pemError.
Proof.
  rewrite load_running_bad_tls.
  exists {| CertFile := "client.crt"; KeyFile := "client.key";
            TrustedCAFile := "ca.crt" |}.
  split; [left | reflexivity].
Qed.

Lemma load_error_policy_witness :
  tls_failed (worldOf false true 0 [])
    (added running
       (load (worldOf false true 0 []) tlsConfigFile true running).2)
    pemError
  ∧ EvLog (LogTLSDisabled pemError)
    ∈ added running
        (load (worldOf false true 0 []) tlsConfigFile true running).2
  ∧ ∃ cfg,
      EvNew cfg
      ∈ added running
          (load (worldOf false true 0 []) tlsConfigFile true running).2
      ∧ TLS cfg = None
      ∧ (clientv3_New (worldOf false true 0 []) cfg = None →
         client (self (load (worldOf false true 0 []) tlsConfigFile true
                         running).2)
         = Some {| client_ptr := heap running; client_cfg := cfg |}).
Proof.
  split; [exact bad_tls_failed|].
  pose proof (load_error_policy (worldOf false true 0 []) tlsConfigFile true
                running
                (load (worldOf false true 0 []) tlsConfigFile true running).1
                (load (worldOf false true 0 []) tlsConfigFile true running).2)
    as H.
  destruct H as (_ & _ & _ & H); [by destruct (load _ _ _ _)|].
  exact (H pemError bad_tls_failed).
Defined.

(** C3 as the specification states it fails on that reload: a failure
    occurred, [load] returned [nil], and the installed client was closed
    and replaced in the slot. *)
Lemma reload_failure_replaces_client :
  (load (worldOf false true 0 []) tlsConfigFile true running).1 = Ret None
  ∧ tls_failed (worldOf false true 0 [])
      (added running
         (load (worldOf false true 0 []) tlsConfigFile true running).2)
      pemError
  ∧ client (self (load (worldOf false true 0 []) tlsConfigFile true running).2)
    ≠ client (self running)
  ∧ EvClientClose plainClient
    ∈ added running
        (load (worldOf false true 0 []) tlsConfigFile true running).2.
Proof.
  split; [by rewrite load_running_bad_tls|].
  split; [exact bad_tls_failed|].
  rewrite load_running_bad_tls. split; [discriminate|].
  do 3 right. left.
Qed.

(** ** Resolving the endpoints *)












Definition listConfig : ConfigFile :=
  configOf [("etcd", "endpoints", " 10.0.0.1:2379, ,10.0.0.2:2379 ,");
            ("etcd", "discoverysrv", "example.com")].

Example load_list :
  load (worldOf true true 0 []) listConfig false fresh
  = (Ret None,
     {| self :=
          {| compatSection := EmptyString;
             client :=
               Some {| client_ptr := 0;
                       client_cfg :=
                         {| Endpoints := ["10.0.0.1:2379"; "10.0.0.2:2379"];
                            DialTimeout := time_Second; TLS := None |} |};
             listeners := None |};
        trace := [EvNew {| Endpoints := ["10.0.0.1:2379"; "10.0.0.2:2379"];
                           DialTimeout := time_Second; TLS := None |};
                  EvStore {| client_ptr := 0;
                             client_cfg :=
                               {| Endpoints := ["10.0.0.1:2379"; "10.0.0.2:2379"];
                                  DialTimeout := time_Second; TLS := None |} |};
                  EvLog (LogUsing ["10.0.0.1:2379"; "10.0.0.2:2379"]);
                  EvLock; EvUnlock];
        heap := 1; syncs := 0 |}).
Proof. vm_compute. reflexivity. Qed.


(** ** Waiting for the connection *)

(** The delays slept in a run, in order. *)
Definition sleeps (es : list event) : list Duration :=
  omap (λ e, match e with EvSleep d => Some d | _ => None end) es.

Section Backoff.

Variable w : World.
Variables initialWaitDelay maxWaitDelay : Duration.

(** The constants are durations with the initial delay below the
    maximum, and the maximum can be doubled in 64 bits. *)
Hypothesis initial_nonneg : (0 ≤ initialWaitDelay)%Z.
Hypothesis initial_le_max : (initialWaitDelay ≤ maxWaitDelay)%Z.
Hypothesis max_doubles : (maxWaitDelay < 2 ^ 62)%Z.

(** The doubling sequence from the initial delay, capped at the
    maximum. *)
Definition backoff (k : nat) : Duration :=
  ((initialWaitDelay * 2 ^ Z.of_nat k) `min` maxWaitDelay)%Z.

Lemma backoff_0 : backoff 0 = initialWaitDelay.
Proof. unfold backoff. simpl. lia. Qed.

Lemma backoff_next k :
  (let waitDelay := wrap64 (backoff k * 2) in
   if (waitDelay >? maxWaitDelay)%Z then maxWaitDelay else waitDelay)
  = backoff (S k).
Proof.
  unfold backoff. rewrite Nat2Z.inj_succ, Z.pow_succ_r by lia.
  assert (0 ≤ initialWaitDelay * 2 ^ Z.of_nat k)%Z as Hpos
    by (apply Z.mul_nonneg_nonneg; [done | apply Z.pow_nonneg; lia]).
  set (x := (initialWaitDelay * 2 ^ Z.of_nat k)%Z) in *.
  replace (initialWaitDelay * (2 * 2 ^ Z.of_nat k))%Z with (2 * x)%Z
    by (unfold x; lia).
  assert (wrap64 (x `min` maxWaitDelay * 2)%Z = (x `min` maxWaitDelay * 2)%Z)
    as ->.
  { unfold wrap64. rewrite Z.mod_small; lia. }
  cbv zeta.
  destruct (Z.gtb_spec (x `min` maxWaitDelay * 2)%Z maxWaitDelay); lia.
Qed.

Definition afterFailures (st : State) (es : list event) (n : nat) : State :=
  {| self := self st; trace := trace st ++ es;
     heap := heap st; syncs := syncs st + n |}.

(** [n] failed attempts: the loop goes on with the delay [n] places
    further in the sequence, having slept the [n] delays before it. *)
Lemma waitLoop_failures cl n :
  ∀ k st fuel,
    client (self st) = Some cl →
    (∀ i, (i < n)%nat → client_Sync w (syncs st + i) ≠ None) →
    ∃ es,
      sleeps es = backoff <$> seq k n
      ∧ waitLoop w maxWaitDelay (n + fuel) (backoff k) st
        = waitLoop w maxWaitDelay fuel (backoff (k + n)) (afterFailures st es n).
Proof.
  induction n as [|n IH]; intros k st fuel Hcl Hfail.
  - exists []. split; [done|]. unfold afterFailures.
    rewrite !Nat.add_0_r, app_nil_r. by destruct st.
  - pose proof (Hfail 0%nat ltac:(lia)) as H0. rewrite Nat.add_0_r in H0.
    destruct (client_Sync w (syncs st)) as [err|] eqn:Hsync; [|done].
    set (line := if decide (err = context_DeadlineExceeded)
                 then EvLog (LogSyncTimeout (backoff k))
                 else EvLog (LogSyncFailed (backoff k) err)).
    set (st1 := afterFailures st [EvSync cl (context_WithTimeout
                                     context_Background time_Second);
                                  line; EvSleep (backoff k)] 1).
    destruct (IH (S k) st1 fuel) as (es & Hes & Hrun); [done| |].
    { intros i Hi. unfold st1; simpl.
      replace (syncs st + 1 + i)%nat with (syncs st + S i)%nat by lia.
      apply Hfail. lia. }
    exists ([EvSync cl (context_WithTimeout context_Background time_Second);
             line; EvSleep (backoff k)] ++ es).
    split.
    + unfold sleeps in *. rewrite omap_app, Hes. unfold line.
      by destruct (decide _).
    + replace (k + S n)%nat with (S k + n)%nat by lia.
      replace (afterFailures st (_ ++ es) (S n))
        with (afterFailures st1 es n).
      2:{ unfold afterFailures, st1; simpl. f_equal; [|lia].
          by rewrite <- app_assoc. }
      rewrite <- Hrun. clear Hrun IH.
      cbn [Nat.add waitLoop].
      unfold syncClient, getEtcdClient, getSelf, nextSync. run_steps.
      cbn [self addTrace]. rewrite Hcl. run_steps.
      cbn [syncs addTrace]. rewrite Hsync.
      pose proof (backoff_next k) as Hnext. cbv zeta in Hnext.
      rewrite Hnext. unfold st1, afterFailures, line.
      destruct (decide _); run_steps; f_equal; unfold addTrace;
        cbn [self trace heap syncs]; (f_equal; [by rewrite <- app_assoc|lia]).
Qed.

Lemma waitLoop_success cl st fuel d :
  client (self st) = Some cl →
  client_Sync w (syncs st) = None →
  waitLoop w maxWaitDelay (S fuel) d st
  = (Ret true,
     afterFailures st [EvSync cl (context_WithTimeout context_Background
                                    time_Second);
                       EvLog (LogSynced (client_Endpoints w cl))] 1).
Proof.
  intros Hcl Hsync. cbn [waitLoop].
  unfold syncClient, getEtcdClient, getSelf, nextSync. run_steps.
  cbn [self addTrace]. rewrite Hcl. run_steps.
  cbn [syncs addTrace self]. rewrite Hsync. cbn [self trace heap].
  rewrite Hcl. run_steps.
  unfold afterFailures, addTrace. cbn [self trace heap syncs].
  do 2 f_equal; [by rewrite <- app_assoc|lia].
Qed.

(** C5: while the synchronization fails, [WaitForConnection] goes on:
    after [fuel] attempts that all failed it is still looping and has
    slept the first [fuel] delays of the doubling sequence.  When the call
    fails [N] times and then succeeds, it returns at that attempt, having
    slept exactly the first [N] delays of the sequence, which starts at
    the initial delay and is capped at the maximum. *)
Theorem WaitForConnection_backoff cl st N fuel :
  client (self st) = Some cl →
  (∀ i, (i < N)%nat → client_Sync w (syncs st + i) ≠ None) →
  let run := WaitForConnection w initialWaitDelay maxWaitDelay fuel st in
  ((fuel ≤ N)%nat →
     run.1 = Ret false
     ∧ sleeps (added st run.2) = backoff <$> seq 0 fuel)
  ∧ ((N < fuel)%nat → client_Sync w (syncs st + N) = None →
       run.1 = Ret true
       ∧ sleeps (added st run.2) = backoff <$> seq 0 N).
Proof.
  intros Hcl Hfail run. unfold run, WaitForConnection.
  rewrite <- backoff_0. split.
  - intros Hle.
    destruct (waitLoop_failures cl fuel 0%nat st 0%nat Hcl) as (es & Hes & Hrun).
    { intros i Hi. apply Hfail. lia. }
    rewrite Nat.add_0_r in Hrun. rewrite Hrun. cbn [waitLoop].
    unfold mret, M_ret, ret, afterFailures. cbn [fst snd].
    by rewrite added_record.
  - intros Hlt Hsync.
    destruct (waitLoop_failures cl N 0%nat st (fuel - N)%nat Hcl Hfail)
      as (es & Hes & Hrun).
    replace (N + (fuel - N))%nat with fuel in Hrun by lia.
    rewrite Hrun.
    destruct (fuel - N)%nat as [|fuel'] eqn:Hfuel; [lia|].
    rewrite (waitLoop_success cl); [|done|done].
    unfold afterFailures. cbn [fst snd self trace heap syncs].
    rewrite <- app_assoc, added_record. unfold sleeps in *.
    rewrite omap_app, Hes. cbn. by rewrite app_nil_r.
Qed.

End Backoff.

(** The constants as the retry loops of the package have them: one second
    and eight seconds.  With five failures the delays are 1, 2, 4, 8 and 8
    seconds. *)
Lemma WaitForConnection_backoff_witness :
  (0 ≤ time_Second)%Z ∧ (time_Second ≤ 8 * time_Second)%Z
  ∧ (8 * time_Second < 2 ^ 62)%Z
  ∧ client (self running) = Some plainClient
  ∧ (WaitForConnection (worldOf true true 5 []) time_Second (8 * time_Second)%Z
       9 running).1 = Ret true
  ∧ sleeps (added running
              (WaitForConnection (worldOf true true 5 []) time_Second
                 (8 * time_Second)%Z 9 running).2)
    = [1000000000; 2000000000; 4000000000; 8000000000; 8000000000]%Z
  ∧ (WaitForConnection (worldOf true true 5 []) time_Second (8 * time_Second)%Z
       3 running).1 = Ret false.
Proof.
  assert (0 ≤ time_Second)%Z as H0 by (unfold time_Second; lia).
  assert (time_Second ≤ 8 * time_Second)%Z as H1 by (unfold time_Second; lia).
  assert (8 * time_Second < 2 ^ 62)%Z as H2 by (unfold time_Second; lia).
  assert (∀ i, (i < 5)%nat →
               client_Sync (worldOf true true 5 []) (syncs running + i) ≠ None)
    as Hfail.
  { intros i Hi. simpl. destruct (Nat.ltb_spec i 5); [done|lia]. }
  split; [exact H0|]. split; [exact H1|]. split; [exact H2|].
  split; [reflexivity|].
  pose proof (WaitForConnection_backoff (worldOf true true 5 []) time_Second
                (8 * time_Second)%Z H0 H1 H2 plainClient running 5 9 eq_refl Hfail)
    as [_ Hret].
  pose proof (WaitForConnection_backoff (worldOf true true 5 []) time_Second
                (8 * time_Second)%Z H0 H1 H2 plainClient running 5 3 eq_refl Hfail)
    as [Hloop _].
  assert (5 < 9)%nat as Hlt by lia.
  assert (3 ≤ 5)%nat as Hle by lia.
  destruct (Hret Hlt eq_refl) as [Hr Hs].
  destruct (Hloop Hle) as [Hl _].
  split; [exact Hr|]. split; [exact Hs|exact Hl].
Defined.

(** ** TLS of the created client *)

Lemma isEmpty_false s : isEmpty s = false ↔ s ≠ EmptyString.
Proof. by destruct s. Qed.

(** The TLS material is complete and parses. *)
Definition tls_material_ok (w : World) (cs : string) (config : ConfigFile)
  : Prop :=
  cfgValue cs config "clientkey" ≠ EmptyString
  ∧ cfgValue cs config "clientcert" ≠ EmptyString
  ∧ cfgValue cs config "cacert" ≠ EmptyString
  ∧ ∃ tlsConfig,
      ClientConfig w {| CertFile := cfgValue cs config "clientcert";
                        KeyFile := cfgValue cs config "clientkey";
                        TrustedCAFile := cfgValue cs config "cacert" |}
      = inr tlsConfig.

Lemma tlsEnabled_iff w cs config :
  is_Some (tlsEnabled w cs config) ↔ tls_material_ok w cs config.
Proof.
  unfold tlsEnabled, tlsFiles, tls_material_ok.
  rewrite <- !isEmpty_false.
  destruct (isEmpty (cfgValue cs config "clientkey")),
    (isEmpty (cfgValue cs config "clientcert")),
    (isEmpty (cfgValue cs config "cacert")); simpl;
    try (split; [by intros [? ?] | by intros (? & ? & ? & ?)]).
  destruct (ClientConfig w _) as [err|tlsConfig].
  - split; [by intros [? ?] | by intros (_ & _ & _ & ? & ?)].
  - split; [by eauto | by eauto].
Qed.

(** C6: the client a run of [load] stores was created from a non-empty
    endpoint list, is the one in the slot afterwards, and has TLS enabled
    exactly when the three options [clientkey], [clientcert] and [cacert]
    are non-empty and the TLS configuration built from them parses. *)
Theorem load_tls_iff w config ignoreErrors st r st' new :
  load w config ignoreErrors st = (r, st') →
  EvStore new ∈ added st st' →
  client (self st') = Some new
  ∧ Endpoints (client_cfg new) ≠ []
  ∧ (is_Some (TLS (client_cfg new))
     ↔ tls_material_ok w (compatSection (self st)) config).
Proof.
  intros Hload Hin.
  pose proof (load_run w config ignoreErrors st) as P. rewrite Hload in P.
  inversion P; subst; rewrite ?added_addTrace, ?added_record in Hin;
    try by (split_in; done).
  assert (new = newClient w config st) as -> by (split_in; done).
  split; [done|]. split; [done|]. apply tlsEnabled_iff.
Qed.

Lemma load_tls_iff_witness :
  EvStore tlsClient
  ∈ added running (load (worldOf true true 0 []) tlsConfigFile true running).2
  ∧ client (self (load (worldOf true true 0 []) tlsConfigFile true running).2)
    = Some tlsClient
  ∧ Endpoints (client_cfg tlsClient) ≠ []
  ∧ (is_Some (TLS (client_cfg tlsClient))
     ↔ tls_material_ok (worldOf true true 0 []) (compatSection (self running))
         tlsConfigFile).
Proof.
  assert (EvStore tlsClient
          ∈ added running
              (load (worldOf true true 0 []) tlsConfigFile true running).2)
    as Hin by (rewrite load_running_tls; do 3 right; left).
  split; [exact Hin|].
  apply (load_tls_iff (worldOf true true 0 []) tlsConfigFile true running
           (load (worldOf true true 0 []) tlsConfigFile true running).1);
    [by destruct (load _ _ _ _) | exact Hin].
Defined.

(** ** Listeners *)

(** C7: [AddListener] registers the listener under the lock and, when a
    client is installed, starts one goroutine that calls
    [EtcdClientCreated] of the new listener; it calls no hook itself.  When
    no client is installed it starts none. *)
Theorem AddListener_notifies listener st :
  AddListener listener st
  = (Ret tt,
     {| self :=
          {| compatSection := compatSection (self st);
             client := client (self st);
             listeners :=
               Some (<[listener := true]>
                       (match listeners (self st) with
                        | Some m => m
                        | None => ∅
                        end)) |};
        trace :=
          trace st ++ [EvLock]
          ++ (match client (self st) with
              | Some _ => [EvGoEtcdClientCreated listener]
              | None => []
              end)
          ++ [EvUnlock];
        heap := heap st;
        syncs := syncs st |}).
Proof.
  unfold AddListener, getEtcdClient, getSelf, setSelf. run_steps.
  cbn [self trace heap syncs addTrace client].
  destruct (client (self st)); run_steps; unfold addTrace;
    cbn [self trace heap syncs]; by rewrite <- ?app_assoc.
Qed.

Example AddListener_running :
  added running (AddListener 11 running).2
  = [EvLock; EvGoEtcdClientCreated 11; EvUnlock].
Proof. reflexivity. Qed.

Example AddListener_fresh :
  added fresh (AddListener 11 fresh).2 = [EvLock; EvUnlock].
Proof. reflexivity. Qed.

(** Whether the mutex is held after the events of a trace. *)
Definition lockStep (h : bool) (e : event) : bool :=
  match e with
  | EvLock => true
  | EvUnlock => false
  | _ => h
  end.

Definition held (es : list event) : bool := fold_left lockStep es false.

(** Notification outside the lock, as the specification has it: no hook of
    a listener is called while the mutex is held. *)
Definition delivered_unlocked (es : list event) : Prop :=
  ∀ i l, es !! i = Some (EvEtcdClientCreated l) → held (take i es) = false.

(** The events of the listener protocol. *)
Definition is_listener_event (e : event) : bool :=
  match e with
  | EvLock | EvUnlock | EvEtcdClientCreated _ | EvGoEtcdClientCreated _ => true
  | _ => false
  end.

(** The listeners registered in a state. *)
Definition registered (st : State) (l : Listener) : Prop :=
  match listeners (self st) with
  | Some m => is_Some (m !! l)
  | None => False
  end.

Lemma rangeListeners_registered w st :
  NoDup (rangeListeners w (listeners (self st)))
  ∧ ∀ l, l ∈ rangeListeners w (listeners (self st)) ↔ registered st l.
Proof.
  unfold rangeListeners, registered.
  destruct (listeners (self st)) as [m|].
  - pose proof (rangeKeys_perm w m) as Hperm. split.
    + rewrite Hperm. apply NoDup_fst_map_to_list.
    + intros l. rewrite Hperm, list_elem_of_fmap. split.
      * intros ([k v] & -> & Hin). apply elem_of_map_to_list in Hin. by eexists.
      * intros [v Hv]. exists (l, v). split; [done|].
        by apply elem_of_map_to_list.
  - split; [constructor|]. intros l. by rewrite elem_of_nil.
Qed.

Lemma held_app a b : held (a ++ b) = fold_left lockStep b (held a).
Proof. unfold held. by rewrite fold_left_app. Qed.

Lemma held_quiet h es :
  Forall (λ e, is_listener_event e = false) es → fold_left lockStep es h = h.
Proof.
  intros H. revert h. induction H as [|e es He _ IH]; intros h; [done|].
  simpl. rewrite IH. by destruct e.
Qed.

Lemma held_calls h (ls : list Listener) :
  fold_left lockStep (EvEtcdClientCreated <$> ls) h = h.
Proof. revert h. induction ls as [|l ls IH]; intros h; [done|]. apply IH. Qed.

(** In a trace of that shape every hook call is made with the mutex
    held. *)
Lemma held_at_calls pre new m (order : list Listener) i l :
  Forall (λ e, is_listener_event e = false) pre →
  (pre ++ [EvStore new; EvLog m; EvLock]
       ++ (EvEtcdClientCreated <$> order) ++ [EvUnlock]) !! i
  = Some (EvEtcdClientCreated l) →
  held (take i (pre ++ [EvStore new; EvLog m; EvLock]
                    ++ (EvEtcdClientCreated <$> order) ++ [EvUnlock]))
  = true.
Proof.
  intros Hpre H. apply lookup_app_Some in H as [H|[Hle H]].
  - apply list_elem_of_lookup_2 in H. rewrite Forall_forall in Hpre.
    by apply Hpre in H.
  - rewrite take_app_ge by done. rewrite held_app.
    destruct (i - length pre)%nat as [|[|[|j]]]; try done.
    cbn [app take fold_left lockStep]. cbn [app lookup list_lookup] in H.
    apply lookup_app_Some in H as [H|[Hle' H]].
    + apply lookup_lt_Some in H.
      rewrite take_app_le by lia. rewrite <- fmap_take. apply held_calls.
    + by destruct (j - length (EvEtcdClientCreated <$> order))%nat.
Qed.

(** After the store of [new] the run takes the lock, calls
    [EtcdClientCreated] of every registered listener once, one call after
    the other with the lock held, and releases the lock; before the store no
    listener event happens. *)
Definition notifies_under_lock (st st' : State) (new : Client) : Prop :=
  ∃ pre order,
    added st st'
    = pre ++ [EvStore new; EvLog (LogUsing (Endpoints (client_cfg new))); EvLock]
          ++ (EvEtcdClientCreated <$> order) ++ [EvUnlock]
    ∧ Forall (λ e, is_listener_event e = false) pre
    ∧ NoDup order
    ∧ (∀ l, l ∈ order ↔ registered st l)
    ∧ (∀ i l, added st st' !! i = Some (EvEtcdClientCreated l) →
              held (take i (added st st')) = true).

(** C8, as the code has it: when [load] stores a new client, every listener
    registered at that time gets exactly one call of [EtcdClientCreated];
    the calls are made by [load] itself, one after the other, while it
    holds the listener lock. *)
Theorem load_notifies_under_lock w config ignoreErrors st r st' new :
  load w config ignoreErrors st = (r, st') →
  EvStore new ∈ added st st' →
  notifies_under_lock st st' new.
Proof.
  intros Hload Hin. unfold notifies_under_lock.
  pose proof (load_run w config ignoreErrors st) as P. rewrite Hload in P.
  inversion P; subst; rewrite ?added_addTrace, ?added_record in *;
    try by (split_in; done).
  assert (new = newClient w config st) as -> by (split_in; done).
  clear Hin.
  set (pre := resolveTrace (compatSection (self st)) config
              ++ tlsTrace w (compatSection (self st)) config ignoreErrors
              ++ [EvNew (newConfig w config st)] ++ closePrev st).
  assert (Forall (λ e, is_listener_event e = false) pre) as Hpre.
  { unfold pre, closePrev.
    apply Forall_app; split; [|apply Forall_app; split; [|apply Forall_app; split]].
    - eapply Forall_impl; [apply resolveTrace_prep|]. by intros [].
    - eapply Forall_impl; [apply tlsTrace_prep|]. by intros [].
    - by repeat constructor.
    - destruct (client (self st)); by repeat constructor. }
  match goal with
  | |- ∃ _ _, ?es = _ ∧ _ =>
      assert (es = pre ++ [EvStore (newClient w config st);
                           EvLog (LogUsing (effective w config st)); EvLock]
                       ++ (EvEtcdClientCreated
                             <$> rangeListeners w (listeners (self st)))
                       ++ [EvUnlock]) as Heq
        by (unfold pre, notifications; by rewrite <- !app_assoc)
  end.
  exists pre, (rangeListeners w (listeners (self st))).
  destruct (rangeListeners_registered w st) as [Hnodup Hreg].
  split; [exact Heq|]. split; [done|]. split; [done|]. split; [done|].
  intros i l. rewrite Heq. by apply held_at_calls.
Qed.

Lemma load_notifies_under_lock_witness :
  EvStore tlsClient
  ∈ added running (load (worldOf true true 0 []) tlsConfigFile true running).2
  ∧ notifies_under_lock running
      (load (worldOf true true 0 []) tlsConfigFile true running).2 tlsClient.
Proof.
  assert (EvStore tlsClient
          ∈ added running
              (load (worldOf true true 0 []) tlsConfigFile true running).2)
    as Hin by (rewrite load_running_tls; do 3 right; left).
  split; [exact Hin|].
  apply (load_notifies_under_lock (worldOf true true 0 []) tlsConfigFile true
           running
           (load (worldOf true true 0 []) tlsConfigFile true running).1);
    [by destruct (load _ _ _ _) | exact Hin].
Defined.

(** C8 as the specification states it fails on the run of the end-to-end
    scenario: listener 9 is called at position 6 of the run, after the lock
    was taken at position 5 and before it is released at position 8, by a
    plain call and not by a goroutine. *)
Lemma notification_outside_lock_fails :
  ¬ delivered_unlocked
      (added running
         (load (worldOf true true 0 []) tlsConfigFile true running).2)
  ∧ ∀ l, EvGoEtcdClientCreated l
         ∉ added running
             (load (worldOf true true 0 []) tlsConfigFile true running).2.
Proof.
  rewrite load_running_tls. split.
  - intros H. by specialize (H 6%nat 9%nat eq_refl).
  - intros l Hin. split_in.
Qed.

(** ** Waiting for reloaded credentials *)

(** C9: without a certificate loader [WaitForCertificateReload] returns the
    error "no certificate loaded", and without a certificate pool
    [WaitForCertPoolReload] returns the error "no certificate pool loaded";
    otherwise each returns what [WaitForReload] of the loader, or of the
    pool, returns for the context of the caller. *)
Theorem reload_waits_need_loader :
  (∀ p ctx,
     WaitForCertificateReload {| loader := None; pool := p |} ctx
     = Some (errors_New "no certificate loaded"))
  ∧ (∀ l ctx,
       WaitForCertPoolReload {| loader := l; pool := None |} ctx
       = Some (errors_New "no certificate pool loaded"))
  ∧ (∀ l p ctx,
       WaitForCertificateReload {| loader := Some l; pool := p |} ctx
       = cert_WaitForReload l ctx)
  ∧ (∀ l p ctx,
       WaitForCertPoolReload {| loader := l; pool := Some p |} ctx
       = pool_WaitForReload p ctx).
Proof. repeat split. Qed.

(** A loader whose reload never comes: waiting ends with the context. *)
Definition idleLoader : CertificateLoader :=
  {| cert_WaitForReload := λ ctx,
       match ctx with
       | context_Background => None
       | _ => Some context_DeadlineExceeded
       end |}.

Example wait_idle :
  WaitForCertificateReload {| loader := Some idleLoader; pool := None |}
    (context_WithTimeout context_Background time_Second)
  = Some context_DeadlineExceeded
  ∧ WaitForCertPoolReload {| loader := Some idleLoader; pool := None |}
      (context_WithTimeout context_Background time_Second)
    = Some (errors_New "no certificate pool loaded").
Proof. split; reflexivity. Qed.

(** ** Operations without a client *)

(** A client constructed from a configuration without endpoints has no
    coordination client installed. *)
Lemma NewEtcdClient_no_endpoints w config cs st :
  resolved w cs config = inr [] →
  ∃ st', NewEtcdClient w config cs st = (Ret None, st')
         ∧ client (self st') = None.
Proof.
  intros Hres. unfold NewEtcdClient, setSelf. run_steps.
  match goal with
  | |- ∃ _, load _ _ _ ?s = _ ∧ _ =>
      pose proof (load_run w config false s) as P;
      destruct (load w config false s) as [r st'] eqn:Hload
  end.
  inversion P as [err Hr|Heff Hie|err Heff|err Heff|Heff]; subst;
    unfold effective in *; cbn [self compatSection] in *;
    try (rewrite Hres in *; done).
  eexists. split; [done|]. done.
Qed.

(** C10: with no client installed, [Get], [Watch] and [WaitForConnection]
    dereference the nil client: they panic, [Watch] before any hook of the
    watcher is called and [WaitForConnection] at its first attempt.
    [Close] returns [nil] and [IsConfigured] returns [false], and neither
    does anything else. *)
Theorem nil_client_operations w initialWaitDelay maxWaitDelay st :
  client (self st) = None →
  (∀ ctx key opts, (Get w ctx key opts st).1 = Panic)
  ∧ (∀ ctx key watcher opts,
       (Watch w ctx key watcher opts st).1 = Panic
       ∧ hooks (added st (Watch w ctx key watcher opts st).2) = [])
  ∧ (∀ fuel,
       (WaitForConnection w initialWaitDelay maxWaitDelay (S fuel) st).1 = Panic)
  ∧ Close w st = (Ret None, st)
  ∧ IsConfigured st = (Ret false, st).
Proof.
  intros Hnil. repeat split.
  - intros ctx key opts. unfold Get, getEtcdClient, getSelf. run_steps.
    by rewrite Hnil.
  - unfold Watch, getEtcdClient, getSelf. run_steps. cbn [self addTrace].
    by rewrite Hnil.
  - unfold Watch, getEtcdClient, getSelf. run_steps. cbn [self addTrace].
    rewrite Hnil. unfold panic. cbn [snd]. by rewrite added_addTrace.
  - intros fuel. unfold WaitForConnection. cbn [waitLoop].
    unfold syncClient, getEtcdClient, getSelf. run_steps. by rewrite Hnil.
  - unfold Close, getEtcdClient, getSelf. run_steps. by rewrite Hnil.
  - unfold IsConfigured, getEtcdClient, getSelf. run_steps. by rewrite Hnil.
Qed.

(** The state after constructing a client from an empty configuration. *)
Definition unconfigured : State :=
  (NewEtcdClient (worldOf true true 0 []) (configOf []) EmptyString fresh).2.

Lemma nil_client_operations_witness :
  NewEtcdClient (worldOf true true 0 []) (configOf []) EmptyString fresh
  = (Ret None, unconfigured)
  ∧ client (self unconfigured) = None
  ∧ (Get (worldOf true true 0 []) (context_Caller 1) "/" [] unconfigured).1
    = Panic
  ∧ (Watch (worldOf true true 0 []) (context_Caller 1) "/" 5 [] unconfigured).1
    = Panic
  ∧ (WaitForConnection (worldOf true true 0 []) time_Second (8 * time_Second)%Z
       1 unconfigured).1 = Panic
  ∧ Close (worldOf true true 0 []) unconfigured = (Ret None, unconfigured)
  ∧ IsConfigured unconfigured = (Ret false, unconfigured).
Proof.
  split; [reflexivity|]. split; [reflexivity|].
  pose proof (nil_client_operations (worldOf true true 0 []) time_Second
                (8 * time_Second)%Z unconfigured eq_refl)
    as (HGet & HWatch & HWait & HClose & HIs).
  split; [apply HGet|]. split; [apply HWatch|]. split; [apply HWait|].
  split; [exact HClose | exact HIs].
Defined.

(** * Further properties of the client *)

(** ** Reading an option with its legacy section *)

(** X1: The section [etcd] wins: its value is returned without a log line when
    it is not empty.  The compatibility section is only consulted when that
    value is empty and a section is set; a deprecation warning is logged
    exactly when the value found there is used, that is when it is not
    empty.  The receiver is never changed. *)
Theorem getConfigStringWithFallback_fallback config option_ st :
  let primary := (GetString config "etcd" option_).1 in
  let section := compatSection (self st) in
  let legacy := (GetString config section option_).1 in
  let run := getConfigStringWithFallback config option_ st in
  (primary ≠ EmptyString → run = (Ret primary, st))
  ∧ (primary = EmptyString → section = EmptyString →
       run = (Ret EmptyString, st))
  ∧ (primary = EmptyString → section ≠ EmptyString → legacy = EmptyString →
       run = (Ret EmptyString, st))
  ∧ (primary = EmptyString → section ≠ EmptyString → legacy ≠ EmptyString →
       run = (Ret legacy,
              addTrace st [EvLog (LogDeprecated option_ section)])).
Proof.
  cbv zeta. rewrite getConfigStringWithFallback_run. unfold cfgValue, cfgLog.
  destruct ((GetString config "etcd" option_).1) as [|a p] eqn:Hp;
    destruct (compatSection (self st)) as [|b s] eqn:Hs;
    simpl; rewrite ?addTrace_nil; repeat split; try done.
  - intros _ _ ->. simpl. by rewrite addTrace_nil.
  - intros _ _ Hl. by destruct (GetString config (String b s) option_).1.
Qed.

Definition legacyConfig : ConfigFile :=
  configOf [("etcd", "endpoints", "10.0.0.1:2379");
            ("mcu", "endpoints", "10.9.9.9:2379");
            ("mcu", "clientkey", "legacy.key")].

Definition legacyState : State :=
  {| self := {| compatSection := "mcu"; client := None; listeners := None |};
     trace := []; heap := 0; syncs := 0 |}.

Lemma getConfigStringWithFallback_fallback_witness :
  getConfigStringWithFallback legacyConfig "endpoints" legacyState
  = (Ret "10.0.0.1:2379", legacyState)
  ∧ getConfigStringWithFallback legacyConfig "clientkey" legacyState
    = (Ret "legacy.key",
       addTrace legacyState [EvLog (LogDeprecated "clientkey" "mcu")])
  ∧ getConfigStringWithFallback legacyConfig "cacert" legacyState
    = (Ret EmptyString, legacyState)
  ∧ getConfigStringWithFallback legacyConfig "clientkey" fresh
    = (Ret EmptyString, fresh).
Proof.
  pose proof (getConfigStringWithFallback_fallback legacyConfig "endpoints"
                legacyState) as (H1 & _).
  pose proof (getConfigStringWithFallback_fallback legacyConfig "clientkey"
                legacyState) as (_ & _ & _ & H2).
  pose proof (getConfigStringWithFallback_fallback legacyConfig "cacert"
                legacyState) as (_ & _ & H3 & _).
  pose proof (getConfigStringWithFallback_fallback legacyConfig "clientkey"
                fresh) as (_ & H4 & _).
  split; [by apply H1|]. split; [by apply H2|]. split; [by apply H3|].
  by apply H4.
Defined.

(** ** The explicit endpoint list *)

Lemma Split_no_sep s sep :
  Forall (λ t, sep ∉ list_ascii_of_string t) (strings.Split s sep).
Proof.
  induction s as [|c s IH]; simpl.
  - repeat constructor. by intros ?%elem_of_nil.
  - destruct (Ascii.eqb c sep) eqn:Hc.
    + constructor; [by intros ?%elem_of_nil | done].
    + destruct (Split_cons s sep) as (t & ts & Hs). rewrite Hs in *.
      apply Forall_cons in IH as [Ht Hts]. constructor; [|done].
      simpl. intros [->|Hin]%elem_of_cons; [|done].
      by rewrite Ascii.eqb_refl in Hc.
Qed.

Lemma TrimSpace_bytes s c :
  c ∈ list_ascii_of_string (strings.TrimSpace s) →
  c ∈ list_ascii_of_string s.
Proof.
  unfold strings.TrimSpace, strings.trimRight, strings.trimLeft.
  rewrite list_ascii_of_string_of_list_ascii.
  set (l := list_ascii_of_string s).
  destruct (trimWith_drop strings.spaceWidth (length l) l) as [n ->].
  destruct (trimWith_drop strings.spaceWidthRev (length (drop n l))
              (reverse (drop n l))) as [m ->].
  rewrite elem_of_reverse. intros H.
  apply subseteq_drop in H. rewrite elem_of_reverse in H.
  by apply subseteq_drop in H.
Qed.

(** An endpoint as the loop of [load] keeps it: not empty, no white space
    at either end, no comma. *)
Definition clean_endpoint (ep : string) : Prop :=
  ep ≠ EmptyString
  ∧ strings.spaceWidth (list_ascii_of_string ep) = 0%nat
  ∧ strings.spaceWidthRev (reverse (list_ascii_of_string ep)) = 0%nat
  ∧ comma ∉ list_ascii_of_string ep.

Lemma splitEndpoints_clean s : Forall clean_endpoint (splitEndpoints s).
Proof.
  rewrite splitEndpoints_filter. apply Forall_forall. intros ep Hin.
  apply list_elem_of_filter in Hin as [Hne Hin].
  apply list_elem_of_fmap in Hin as (piece & -> & Hpiece).
  destruct (TrimSpace_trimmed piece) as [Hl Hr].
  split; [done|]. split; [done|]. split; [done|].
  intros Hc%TrimSpace_bytes.
  pose proof (Split_no_sep s comma) as Hsep. rewrite Forall_forall in Hsep.
  by apply (Hsep piece).
Qed.

Lemma effective_explicit w config st :
  cfgValue (compatSection (self st)) config "endpoints" ≠ EmptyString →
  effective w config st
  = splitEndpoints (cfgValue (compatSection (self st)) config "endpoints").
Proof.
  intros Hne. unfold effective, resolved. rewrite splitEndpoints_filter.
  by destruct (cfgValue (compatSection (self st)) config "endpoints").
Qed.

(** The configuration of the one [clientv3.New] a run of [load] makes. *)
Lemma load_new_config w config ignoreErrors st r st' cfg :
  load w config ignoreErrors st = (r, st') →
  EvNew cfg ∈ added st st' →
  cfg = newConfig w config st.
Proof.
  intros Hload Hin.
  pose proof (load_run w config ignoreErrors st) as P. rewrite Hload in P.
  inversion P; subst; rewrite ?added_addTrace, ?added_record in Hin;
    split_in; done.
Qed.

(** X2: When the option [endpoints] is set, every endpoint of a client that
    [load] creates is a piece of that option with its surrounding white
    space removed: it is not empty, starts and ends with no white space and
    holds no comma. *)
Theorem explicit_endpoints_clean w config ignoreErrors st r st' cfg :
  load w config ignoreErrors st = (r, st') →
  EvNew cfg ∈ added st st' →
  cfgValue (compatSection (self st)) config "endpoints" ≠ EmptyString →
  Forall clean_endpoint (Endpoints cfg).
Proof.
  intros Hload Hin Hne.
  rewrite (load_new_config _ _ _ _ _ _ _ Hload Hin). cbn [Endpoints newConfig].
  rewrite effective_explicit by done. apply splitEndpoints_clean.
Qed.

Lemma explicit_endpoints_clean_witness :
  Forall clean_endpoint ["10.0.0.1:2379"; "10.0.0.2:2379"].
Proof.
  apply (explicit_endpoints_clean (worldOf true true 0 []) listConfig false
           fresh
           (load (worldOf true true 0 []) listConfig false fresh).1
           (load (worldOf true true 0 []) listConfig false fresh).2
           {| Endpoints := ["10.0.0.1:2379"; "10.0.0.2:2379"];
              DialTimeout := time_Second; TLS := None |}).
  - by destruct (load _ _ _ _).
  - rewrite load_list. apply list_elem_of_here.
  - discriminate.
Defined.




(** ** What [load] keeps *)

(** X4: [load] returns (it does not panic) and only adds to the trace.  It
    leaves the compatibility section and the registered listeners as they
    were, changes the client slot only by storing the client it created, and
    gives every client it creates a dial timeout of one second. *)
Theorem load_keeps w config ignoreErrors st r st' :
  load w config ignoreErrors st = (r, st') →
  (∃ err, r = Ret err)
  ∧ trace st' = trace st ++ added st st'
  ∧ compatSection (self st') = compatSection (self st)
  ∧ listeners (self st') = listeners (self st)
  ∧ (client (self st') = client (self st)
     ∨ ∃ new, client (self st') = Some new ∧ EvStore new ∈ added st st')
  ∧ ∀ cfg, EvNew cfg ∈ added st st' → DialTimeout cfg = time_Second.
Proof.
  intros Hload.
  assert (∀ cfg, EvNew cfg ∈ added st st' → DialTimeout cfg = time_Second)
    as Hdial.
  { intros cfg Hin. by rewrite (load_new_config _ _ _ _ _ _ _ Hload Hin). }
  pose proof (load_run w config ignoreErrors st) as P. rewrite Hload in P.
  inversion P; subst; rewrite ?added_addTrace, ?added_record in *;
    (split; [by eauto|]); (split; [done|]); (split; [done|]);
    (split; [done|]); (split; [|done]); try by left.
  right. eexists. split; [done|].
  rewrite !elem_of_app. do 2 right. apply elem_of_cons. right.
  apply elem_of_app. right. left.
Qed.

Lemma load_keeps_witness :
  (∃ err, (load (worldOf true true 0 []) tlsConfigFile true running).1 = Ret err)
  ∧ listeners (self (load (worldOf true true 0 []) tlsConfigFile true running).2)
    = listeners (self running)
  ∧ compatSection
      (self (load (worldOf true true 0 []) tlsConfigFile true running).2)
    = compatSection (self running).
Proof.
  pose proof (load_keeps (worldOf true true 0 []) tlsConfigFile true running
                (load (worldOf true true 0 []) tlsConfigFile true running).1
                (load (worldOf true true 0 []) tlsConfigFile true running).2)
    as (H1 & _ & H3 & H4 & _); [by destruct (load _ _ _ _)|].
  split; [exact H1|]. split; [exact H4 | exact H3].
Defined.

(** ** Loading the same configuration again *)

(** The path of a run that stored a client. *)
Lemma load_stored w config ignoreErrors st r st' c :
  load w config ignoreErrors st = (r, st') →
  EvStore c ∈ added st st' →
  c = newClient w config st
  ∧ effective w config st ≠ []
  ∧ (is_Some (tlsError w (compatSection (self st)) config) →
     ignoreErrors = true)
  ∧ clientv3_New w (newConfig w config st) = None
  ∧ r = Ret None
  ∧ self st' = {| compatSection := compatSection (self st);
                  client := Some (newClient w config st);
                  listeners := listeners (self st) |}
  ∧ heap st' = S (heap st).
Proof.
  intros Hload Hin.
  pose proof (load_run w config ignoreErrors st) as P. rewrite Hload in P.
  inversion P; subst; rewrite ?added_addTrace, ?added_record in Hin;
    split_in; done.
Qed.

(** X6: [load] does not compare the new configuration with the installed
    client: when a run stored a client, a second run with the same
    configuration (and the same answers of the world) closes that client
    and stores another one, at the next address, created from an equal
    configuration. *)
Theorem reload_replaces_again w config ignoreErrors st r st1 c1 :
  load w config ignoreErrors st = (r, st1) →
  EvStore c1 ∈ added st st1 →
  ∃ c2,
    (load w config ignoreErrors st1).1 = Ret None
    ∧ client (self (load w config ignoreErrors st1).2) = Some c2
    ∧ client_cfg c2 = client_cfg c1
    ∧ client_ptr c2 = S (client_ptr c1)
    ∧ EvClientClose c1 ∈ added st1 (load w config ignoreErrors st1).2
    ∧ EvStore c2 ∈ added st1 (load w config ignoreErrors st1).2.
Proof.
  intros Hload Hin.
  destruct (load_stored _ _ _ _ _ _ _ Hload Hin)
    as (-> & Heff & Htls & Hnew & _ & Hself & Hheap).
  assert (compatSection (self st1) = compatSection (self st)) as Hcs
    by (by rewrite Hself).
  assert (effective w config st1 = effective w config st) as Heff1
    by (unfold effective; by rewrite Hcs).
  assert (newConfig w config st1 = newConfig w config st) as Hcfg1
    by (unfold newConfig; by rewrite Heff1, Hcs).
  pose proof (load_run w config ignoreErrors st1) as P.
  destruct (load w config ignoreErrors st1) as [r2 st2].
  inversion P as [err Hr Hie|Heff' Hie|err Heff' Hterr Hie|err Heff' Hie Hnew'
                 |Heff' Hie Hnew']; subst.
  - apply effective_inl in Hr. congruence.
  - congruence.
  - rewrite Hcs in Hterr. rewrite Hterr in Htls.
    by discriminate Htls.
  - congruence.
  - exists (newClient w config st1). cbn [fst snd self client].
    rewrite added_record. unfold closePrev, newClient. rewrite Hself, Hcfg1, Hheap.
    cbn [client client_cfg client_ptr].
    split; [done|]. split; [done|]. split; [done|]. split; [done|].
    split.
    + rewrite !elem_of_app. do 2 right. apply elem_of_cons. right.
      apply elem_of_cons. by left.
    + rewrite !elem_of_app. do 2 right. apply elem_of_cons. right.
      apply elem_of_cons. right. apply elem_of_cons. by left.
Qed.

Lemma reload_replaces_again_witness :
  EvStore plainClient
  ∈ added fresh (load (worldOf true true 0 []) plainConfig false fresh).2
  ∧ ∃ c2,
      (load (worldOf true true 0 []) plainConfig false
         (load (worldOf true true 0 []) plainConfig false fresh).2).1
      = Ret None
      ∧ client_cfg c2 = client_cfg plainClient
      ∧ client_ptr c2 = S (client_ptr plainClient).
Proof.
  assert (EvStore plainClient
          ∈ added fresh (load (worldOf true true 0 []) plainConfig false fresh).2)
    as Hin by (rewrite load_fresh; apply elem_of_cons; right; left).
  split; [exact Hin|].
  destruct (reload_replaces_again (worldOf true true 0 []) plainConfig false
              fresh
              (load (worldOf true true 0 []) plainConfig false fresh).1
              (load (worldOf true true 0 []) plainConfig false fresh).2
              plainClient)
    as (c2 & H1 & _ & H3 & H4 & _);
    [by destruct (load _ _ _ _) | exact Hin |].
  exists c2. split; [exact H1|]. split; [exact H3 | exact H4].
Defined.

(** Find an event in a trace written with [::] and [++]. *)
Ltac find_in :=
  first [ apply list_elem_of_here
        | apply list_elem_of_further; find_in
        | apply elem_of_app; left; find_in
        | apply elem_of_app; right; find_in ].

(** Take apart membership in the traces of [load], the calls included. *)
Ltac split_calls :=
  repeat first
    [ progress split_in
    | match goal with
      | H : _ ∈ tlsCalls _ _ |- _ =>
          unfold tlsCalls in H; destruct (tlsFiles _ _)
      | H : _ ∈ srvCalls _ _ |- _ => unfold srvCalls in H
      end ].

(** ** Constructing a client *)

(** X7: [NewEtcdClient] ends in one of three ways: it returns an error and no
    client is installed; or it returns [nil] without a client, having called
    [clientv3.New] not at all (no endpoints: coordination is disabled); or
    it returns [nil] with a client installed that [clientv3.New] created.
    It starts from a receiver without client and listeners, whatever was
    there before: it closes no client and calls no listener. *)
Theorem NewEtcdClient_outcome w config cs st :
  let run := NewEtcdClient w config cs st in
  ((∃ err, run.1 = Ret (Some err) ∧ client (self run.2) = None)
   ∨ (run.1 = Ret None ∧ client (self run.2) = None
      ∧ ∀ cfg, EvNew cfg ∉ added st run.2)
   ∨ (run.1 = Ret None
      ∧ ∃ c, client (self run.2) = Some c ∧ EvStore c ∈ added st run.2
             ∧ clientv3_New w (client_cfg c) = None))
  ∧ compatSection (self run.2) = cs
  ∧ (∀ c, EvClientClose c ∉ added st run.2)
  ∧ (∀ l, EvEtcdClientCreated l ∉ added st run.2).
Proof.
  cbv zeta. unfold NewEtcdClient, setSelf. run_steps.
  set (st0 := {| self := {| compatSection := cs; client := None;
                            listeners := None |};
                 trace := trace st; heap := heap st; syncs := syncs st |}).
  assert (∀ s, added st s = added st0 s) as Hadd by done.
  pose proof (load_run w config false st0) as P.
  destruct (load w config false st0) as [r st'].
  cbn [fst snd]. rewrite !Hadd.
  inversion P as [err Hr Hie|Heff Hie|err Heff Hterr Hie|err Heff Hie Hnew
                 |Heff Hie Hnew]; subst;
    unfold added, addTrace; cbn [trace]; unfold st0 at 1 2 3; cbn [trace];
    rewrite drop_app_length.
  1,3,4: split; [left; by eauto|]; split; [done|];
    split; intros x Hin; split_calls.
  - split; [right; left|].
    + split; [done|]. split; [done|]. intros cfg Hin. split_in.
    + split; [done|]. split; intros x Hin; split_calls.
  - split; [right; right|].
    + split; [done|]. exists (newClient w config st0).
      split; [done|]. split; [|done]. find_in.
    + split; [done|]. split; intros x Hin; split_calls.
Qed.

(** ** Closing, and reading after a reload *)

Lemma Close_run w st c :
  client (self st) = Some c →
  Close w st = (Ret (client_Close w c), addTrace st [EvClientClose c]).
Proof.
  intros Hc. unfold Close, getEtcdClient, getSelf. run_steps. rewrite Hc.
  by run_steps.
Qed.



(** X9: After a run of [load] that stored a client, [Get] and [Close] address
    that client, not the one installed before: the slot is read anew at
    every call. *)
Theorem operations_use_stored_client w config ignoreErrors st r st1 new :
  load w config ignoreErrors st = (r, st1) →
  EvStore new ∈ added st st1 →
  (∀ ctx key opts,
     Get w ctx key opts st1
     = (Ret (client_Get w new ctx key opts),
        addTrace st1 [EvGet new ctx key opts]))
  ∧ Close w st1 = (Ret (client_Close w new), addTrace st1 [EvClientClose new])
  ∧ IsConfigured st1 = (Ret true, st1).
Proof.
  intros Hload Hin.
  destruct (load_stored _ _ _ _ _ _ _ Hload Hin)
    as (-> & _ & _ & _ & _ & Hself & _).
  assert (client (self st1) = Some (newClient w config st)) as Hc
    by (by rewrite Hself).
  split; [|split].
  - intros ctx key opts. unfold Get, getEtcdClient, getSelf. run_steps.
    rewrite Hc. by run_steps.
  - by apply Close_run.
  - unfold IsConfigured, getEtcdClient, getSelf. run_steps. by rewrite Hc.
Qed.

Lemma operations_use_stored_client_witness :
  EvStore tlsClient
  ∈ added running (load (worldOf true true 0 []) tlsConfigFile true running).2
  ∧ Get (worldOf true true 0 []) (context_Caller 1) "/k" []
      (load (worldOf true true 0 []) tlsConfigFile true running).2
    = (Ret (Some [], None),
       addTrace (load (worldOf true true 0 []) tlsConfigFile true running).2
         [EvGet tlsClient (context_Caller 1) "/k" []]).
Proof.
  assert (EvStore tlsClient
          ∈ added running
              (load (worldOf true true 0 []) tlsConfigFile true running).2)
    as Hin by (rewrite load_running_tls; find_in).
  split; [exact Hin|].
  destruct (operations_use_stored_client (worldOf true true 0 [])
              tlsConfigFile true running
              (load (worldOf true true 0 []) tlsConfigFile true running).1
              (load (worldOf true true 0 []) tlsConfigFile true running).2
              tlsClient) as (HGet & _);
    [by destruct (load _ _ _ _) | exact Hin |].
  apply HGet.
Defined.

(** ** Registering and removing listeners *)

Lemma RemoveListener_run listener st :
  RemoveListener listener st
  = (Ret tt,
     {| self := {| compatSection := compatSection (self st);
                   client := client (self st);
                   listeners := delete listener <$> listeners (self st) |};
        trace := trace st ++ [EvLock; EvUnlock];
        heap := heap st; syncs := syncs st |}).
Proof.
  unfold RemoveListener, getSelf, setSelf. run_steps.
  unfold addTrace. cbn [self trace heap syncs]. by rewrite <- app_assoc.
Qed.

Lemma AddListener_run listener st :
  AddListener listener st
  = (Ret tt,
     {| self :=
          {| compatSection := compatSection (self st);
             client := client (self st);
             listeners :=
               Some (<[listener := true]>
                       (match listeners (self st) with
                        | Some m => m
                        | None => ∅
                        end)) |};
        trace :=
          trace st ++ [EvLock]
          ++ (match client (self st) with
              | Some _ => [EvGoEtcdClientCreated listener]
              | None => []
              end)
          ++ [EvUnlock];
        heap := heap st;
        syncs := syncs st |}).
Proof.
  unfold AddListener, getEtcdClient, getSelf, setSelf. run_steps.
  cbn [self trace heap syncs addTrace client].
  destruct (client (self st)); run_steps; unfold addTrace;
    cbn [self trace heap syncs]; by rewrite <- ?app_assoc.
Qed.

(** X10: [AddListener] registers its listener and [RemoveListener] removes it;
    neither changes the registration of any other listener, the client slot
    or the compatibility section.  [RemoveListener] only takes and releases
    the lock: it notifies nobody, and on a client without listener map it
    leaves the map [nil]. *)
Theorem listener_registration listener st :
  let st1 := (AddListener listener st).2 in
  let st2 := (RemoveListener listener st).2 in
  registered st1 listener
  ∧ ¬ registered st2 listener
  ∧ (∀ other, other ≠ listener →
       (registered st1 other ↔ registered st other)
       ∧ (registered st2 other ↔ registered st other))
  ∧ client (self st1) = client (self st)
  ∧ client (self st2) = client (self st)
  ∧ added st st2 = [EvLock; EvUnlock]
  ∧ (listeners (self st) = None → listeners (self st2) = None).
Proof.
  cbv zeta. rewrite AddListener_run, RemoveListener_run. cbn [snd].
  unfold registered. cbn [self listeners client].
  split; [by rewrite lookup_insert_eq|]. split.
  { destruct (listeners (self st)) as [m|]; cbn; [|by intros []].
    rewrite lookup_delete_eq. by intros [? ?]. }
  split.
  { intros other Hne. rewrite lookup_insert_ne by done. split.
    - destruct (listeners (self st)) as [m|]; [done|].
      rewrite lookup_empty. split; [by intros [? ?] | done].
    - destruct (listeners (self st)) as [m|]; cbn; [|done].
      by rewrite lookup_delete_ne. }
  split; [done|]. split; [done|]. split; [by rewrite added_record|].
  by intros ->.
Qed.

(** The listeners whose hook a run called, in the order of the calls. *)
Definition listener_calls (es : list event) : list Listener :=
  omap (λ e, match e with EvEtcdClientCreated l => Some l | _ => None end) es.

Lemma listener_calls_app a b :
  listener_calls (a ++ b) = listener_calls a ++ listener_calls b.
Proof. apply omap_app. Qed.

Lemma listener_calls_none es :
  Forall (λ e, is_listener_event e = false) es → listener_calls es = [].
Proof.
  induction 1 as [|e es He _ IH]; [done|].
  unfold listener_calls in *. cbn. rewrite IH. by destruct e.
Qed.

Lemma listener_calls_skip e es :
  (∀ l, e ≠ EvEtcdClientCreated l) →
  listener_calls (e :: es) = listener_calls es.
Proof. intros H. unfold listener_calls. cbn. destruct e; try done. by destruct (H l). Qed.

Lemma listener_calls_fmap (order : list Listener) :
  listener_calls (EvEtcdClientCreated <$> order) = order.
Proof.
  induction order as [|l order IH]; [done|].
  unfold listener_calls in *. rewrite fmap_cons. cbn. by rewrite IH.
Qed.

Lemma prep_quiet (es : list event) :
  Forall (λ e, is_prep e = true) es →
  Forall (λ e, is_listener_event e = false) es.
Proof. intros H. eapply Forall_impl; [exact H|]. by intros []. Qed.

(** The hook calls of a run of [load]: those of the registered listeners
    when it stored a client, none otherwise. *)
Lemma load_listener_calls w config ignoreErrors st r st' :
  load w config ignoreErrors st = (r, st') →
  (listener_calls (added st st') = []
   ∧ ∀ new, EvStore new ∉ added st st')
  ∨ (listener_calls (added st st') = rangeListeners w (listeners (self st))
     ∧ ∃ new, EvStore new ∈ added st st').
Proof.
  intros Hload.
  pose proof (load_run w config ignoreErrors st) as P. rewrite Hload in P.
  inversion P; subst; rewrite ?added_addTrace, ?added_record.
  1-4: left; split; [apply listener_calls_none, prep_quiet; solve_prep
                    | intros new Hin; split_calls].
  right. split; [|eexists; find_in].
  rewrite !listener_calls_app.
  rewrite (listener_calls_none (resolveTrace _ _))
    by (apply prep_quiet; solve_prep).
  rewrite (listener_calls_none (tlsTrace _ _ _ _))
    by (apply prep_quiet; solve_prep).
  cbn [app]. rewrite listener_calls_skip by done.
  rewrite listener_calls_app.
  rewrite (listener_calls_none (closePrev _))
    by (unfold closePrev; destruct (client (self st)); by repeat constructor).
  cbn [app]. rewrite !listener_calls_skip by done.
  unfold notifications. rewrite listener_calls_app, listener_calls_fmap.
  rewrite listener_calls_skip by done. cbn. by rewrite app_nil_r.
Qed.

Lemma filter_eq_absent (l : Listener) (order : list Listener) :
  l ∉ order → filter (λ x, x = l) order = [].
Proof.
  induction order as [|x order IH]; [done|].
  intros Hnin. apply not_elem_of_cons in Hnin as [Hne Hnin].
  rewrite filter_cons_False by congruence. by apply IH.
Qed.

Lemma filter_eq_once (l : Listener) (order : list Listener) :
  NoDup order → l ∈ order → filter (λ x, x = l) order = [l].
Proof.
  induction 1 as [|x order Hx Hnd IH]; [by intros ?%elem_of_nil|].
  intros [->|Hin]%elem_of_cons.
  - rewrite filter_cons_True by done. by rewrite filter_eq_absent.
  - rewrite filter_cons_False by (intros ->; done). by apply IH.
Qed.

(** X12: Listeners hear of a client only when one is stored: a run of [load]
    that stores no client calls no listener, and no run of [load] starts a
    goroutine for a listener. *)
Theorem load_silent_without_store w config ignoreErrors st r st' :
  load w config ignoreErrors st = (r, st') →
  ((∀ new, EvStore new ∉ added st st') → listener_calls (added st st') = [])
  ∧ ∀ l, EvGoEtcdClientCreated l ∉ added st st'.
Proof.
  intros Hload. split.
  - intros Hno. destruct (load_listener_calls _ _ _ _ _ _ Hload)
      as [[Hnil _]|[_ [new Hin]]]; [done|]. by apply Hno in Hin.
  - intros l Hin.
    pose proof (load_run w config ignoreErrors st) as P. rewrite Hload in P.
    inversion P; subst; rewrite ?added_addTrace, ?added_record in Hin;
      split_calls.
Qed.

Lemma load_silent_without_store_witness :
  listener_calls
    (added running (load (worldOf true false 0 []) tlsConfigFile true running).2)
  = [].
Proof.
  destruct (load_silent_without_store (worldOf true false 0 []) tlsConfigFile
              true running
              (load (worldOf true false 0 []) tlsConfigFile true running).1
              (load (worldOf true false 0 []) tlsConfigFile true running).2)
    as [H _]; [by destruct (load _ _ _ _)|].
  apply H. intros new Hin.
  assert (added running
            (load (worldOf true false 0 []) tlsConfigFile true running).2
          = [EvClientConfig {| CertFile := "client.crt";
                               KeyFile := "client.key";
                               TrustedCAFile := "ca.crt" |};
             EvNew (client_cfg tlsClient);
             EvLog (LogNewFailed ["10.0.0.1:2379"]
                      (errors_New "etcdclient: no available endpoints"))])
    as Heq by (vm_compute; reflexivity).
  rewrite Heq in Hin. split_in.
Defined.

(** X13: A listener added with [AddListener] is called exactly once by the next
    run of [load] that stores a client; a listener removed with
    [RemoveListener] is not called by it. *)
Theorem listener_lifecycle w config ignoreErrors listener st :
  let added_st := (AddListener listener st).2 in
  let removed_st := (RemoveListener listener st).2 in
  (∀ r st' new,
     load w config ignoreErrors added_st = (r, st') →
     EvStore new ∈ added added_st st' →
     filter (λ x, x = listener) (listener_calls (added added_st st'))
     = [listener])
  ∧ (∀ r st',
       load w config ignoreErrors removed_st = (r, st') →
       listener ∉ listener_calls (added removed_st st')).
Proof.
  cbv zeta. split.
  - intros r st' new Hload Hin.
    destruct (load_listener_calls _ _ _ _ _ _ Hload)
      as [[_ Hno]|[-> _]]; [by apply Hno in Hin|].
    destruct (rangeListeners_registered w (AddListener listener st).2)
      as [Hnd Hreg].
    apply filter_eq_once; [done|]. apply Hreg.
    rewrite AddListener_run. unfold registered. cbn [snd self listeners].
    by rewrite lookup_insert_eq.
  - intros r st' Hload.
    destruct (load_listener_calls _ _ _ _ _ _ Hload)
      as [[-> _]|[-> _]]; [by intros ?%elem_of_nil|].
    destruct (rangeListeners_registered w (RemoveListener listener st).2)
      as [_ Hreg].
    rewrite Hreg, RemoveListener_run. unfold registered.
    cbn [snd self listeners].
    destruct (listeners (self st)) as [m|]; cbn; [|by intros []].
    rewrite lookup_delete_eq. by intros [? ?].
Qed.

Lemma listener_registration_witness :
  registered (AddListener 11 running).2 11
  ∧ ¬ registered (RemoveListener 7 running).2 7
  ∧ (registered (RemoveListener 7 running).2 9 ↔ registered running 9)
  ∧ (registered (AddListener 11 running).2 9 ↔ registered running 9).
Proof.
  destruct (listener_registration 11 running) as (H1 & _ & H3 & _).
  destruct (listener_registration 7 running) as (_ & H2 & H4 & _).
  split; [exact H1|]. split; [exact H2|].
  split; [apply H4; lia | apply H3; lia].
Defined.

Lemma listener_lifecycle_witness :
  filter (λ x, x = 11%nat)
    (listener_calls
       (added (AddListener 11 running).2
          (load (worldOf true true 0 []) tlsConfigFile true
             (AddListener 11 running).2).2))
  = [11%nat]
  ∧ 7%nat
    ∉ listener_calls
        (added (RemoveListener 7 running).2
           (load (worldOf true true 0 []) tlsConfigFile true
              (RemoveListener 7 running).2).2).
Proof.
  destruct (listener_lifecycle (worldOf true true 0 []) tlsConfigFile true 11
              running) as [Hadd _].
  destruct (listener_lifecycle (worldOf true true 0 []) tlsConfigFile true 7
              running) as [_ Hrem].
  split.
  - apply (Hadd (load (worldOf true true 0 []) tlsConfigFile true
                   (AddListener 11 running).2).1
             (load (worldOf true true 0 []) tlsConfigFile true
                (AddListener 11 running).2).2
             {| client_ptr := 1; client_cfg := client_cfg tlsClient |});
      [by destruct (load _ _ _ _)|].
    assert (added (AddListener 11 running).2
              (load (worldOf true true 0 []) tlsConfigFile true
                 (AddListener 11 running).2).2 !! 3%nat
            = Some (EvStore {| client_ptr := 1;
                               client_cfg := client_cfg tlsClient |}))
      as Hat by (vm_compute; reflexivity).
    by apply list_elem_of_lookup_2 in Hat.
  - apply (Hrem (load (worldOf true true 0 []) tlsConfigFile true
                   (RemoveListener 7 running).2).1).
    by destruct (load _ _ _ _).
Defined.

(** X11: Adding a listener that is already registered changes nothing in the
    set of listeners, but with a client installed it starts a goroutine for
    the listener once more: a listener is notified once per call of
    [AddListener]. *)
Theorem AddListener_again listener st :
  let st1 := (AddListener listener st).2 in
  let st2 := (AddListener listener st1).2 in
  listeners (self st2) = listeners (self st1)
  ∧ added st st2
    = added st st1 ++ added st st1.
Proof.
  cbv zeta. rewrite !AddListener_run. cbn [snd self listeners client].
  split.
  - by rewrite insert_insert_eq.
  - unfold added. cbn [trace]. rewrite drop_app_length.
    rewrite <- !app_assoc, drop_app_length.
    by destruct (client (self st)).
Qed.

(** ** The attempts of [WaitForConnection] *)

(** The context of every [Sync]: a timeout of one second on the background
    context. *)
Definition syncContext : Context :=
  context_WithTimeout context_Background time_Second.

(** The delay after [waitDelay], as the loop computes it. *)
Definition nextDelay (maxWaitDelay waitDelay : Duration) : Duration :=
  let waitDelay := wrap64 (waitDelay * 2) in
  if (waitDelay >? maxWaitDelay)%Z then maxWaitDelay else waitDelay.

(** The events of one failed attempt, and of a row of them. *)
Definition attemptEvents (cl : Client) (waitDelay : Duration) (err : error)
  : list event :=
  [EvSync cl syncContext;
   if decide (err = context_DeadlineExceeded)
   then EvLog (LogSyncTimeout waitDelay)
   else EvLog (LogSyncFailed waitDelay err);
   EvSleep waitDelay].

Fixpoint failureEvents (cl : Client) (maxWaitDelay waitDelay : Duration)
    (errs : list error) : list event :=
  match errs with
  | [] => []
  | err :: errs' =>
      attemptEvents cl waitDelay err
      ++ failureEvents cl maxWaitDelay (nextDelay maxWaitDelay waitDelay) errs'
  end.

Lemma waitLoop_trace w maxWaitDelay cl errs :
  ∀ waitDelay st fuel,
    client (self st) = Some cl →
    (∀ i err, errs !! i = Some err →
              client_Sync w (syncs st + i) = Some err) →
    client_Sync w (syncs st + length errs) = None →
    (length errs < fuel)%nat →
    waitLoop w maxWaitDelay fuel waitDelay st
    = (Ret true,
       {| self := self st;
          trace := trace st
                   ++ failureEvents cl maxWaitDelay waitDelay errs
                   ++ [EvSync cl syncContext;
                       EvLog (LogSynced (client_Endpoints w cl))];
          heap := heap st;
          syncs := syncs st + length errs + 1 |}).
Proof.
  induction errs as [|err errs IH]; intros waitDelay st fuel Hcl Herrs Hok Hfuel.
  - destruct fuel as [|fuel]; [simpl in Hfuel; lia|].
    cbn [length] in *. rewrite Nat.add_0_r in *.
    cbn [waitLoop failureEvents app].
    unfold syncClient, getEtcdClient, getSelf, nextSync. run_steps.
    cbn [self addTrace]. rewrite Hcl. run_steps.
    cbn [syncs addTrace self]. rewrite Hok. cbn [self trace heap].
    rewrite Hcl. run_steps. unfold addTrace. cbn [self trace heap syncs].
    do 2 f_equal; [by rewrite <- app_assoc | lia].
  - destruct fuel as [|fuel]; [simpl in Hfuel; lia|].
    pose proof (Herrs 0%nat err eq_refl) as H0. rewrite Nat.add_0_r in H0.
    set (st1 := {| self := self st;
                   trace := trace st ++ attemptEvents cl waitDelay err;
                   heap := heap st; syncs := S (syncs st) |}).
    assert (waitLoop w maxWaitDelay (S fuel) waitDelay st
            = waitLoop w maxWaitDelay fuel (nextDelay maxWaitDelay waitDelay) st1)
      as ->.
    { cbn [waitLoop].
      unfold syncClient, getEtcdClient, getSelf, nextSync. run_steps.
      cbn [self addTrace]. rewrite Hcl. run_steps.
      cbn [syncs addTrace]. rewrite H0. unfold st1, attemptEvents, nextDelay.
      destruct (decide _); run_steps; f_equal; unfold addTrace;
        cbn [self trace heap syncs]; by rewrite <- !app_assoc. }
    rewrite (IH _ st1 fuel); [| done | | |].
    + unfold st1. cbn [self trace heap syncs failureEvents length].
      do 2 f_equal; [by rewrite <- !app_assoc | lia].
    + intros i e Hi. unfold st1. cbn [syncs].
      replace (S (syncs st) + i)%nat with (syncs st + S i)%nat by lia.
      by apply Herrs.
    + unfold st1. cbn [syncs]. cbn [length] in Hok.
      by replace (S (syncs st) + length errs)%nat
        with (syncs st + S (length errs))%nat by lia.
    + cbn [length] in Hfuel. lia.
Qed.

(** X14: [WaitForConnection] with a client installed, when [Sync] fails with the
    errors [errs] and then succeeds: every failed attempt is one [Sync] on
    the installed client with a fresh timeout of one second on the
    background context, one log line (the timeout line exactly when the
    error is [context.DeadlineExceeded] itself) and one sleep; the
    successful attempt is one more [Sync] and the line with the endpoints
    of the client.  Nothing else happens and the receiver is not changed.
    This holds for any values of the two delay constants. *)
Theorem WaitForConnection_trace w initialWaitDelay maxWaitDelay st cl errs fuel :
  client (self st) = Some cl →
  (∀ i err, errs !! i = Some err → client_Sync w (syncs st + i) = Some err) →
  client_Sync w (syncs st + length errs) = None →
  (length errs < fuel)%nat →
  WaitForConnection w initialWaitDelay maxWaitDelay fuel st
  = (Ret true,
     {| self := self st;
        trace := trace st
                 ++ failureEvents cl maxWaitDelay initialWaitDelay errs
                 ++ [EvSync cl syncContext;
                     EvLog (LogSynced (client_Endpoints w cl))];
        heap := heap st;
        syncs := syncs st + length errs + 1 |}).
Proof. intros. unfold WaitForConnection. by apply waitLoop_trace. Qed.

(** A world whose [Sync] fails with a timeout, then with another error, and
    succeeds then. *)
Definition flakyWorld : World :=
  {| srv_GetClient := λ _ _ _, inl (errors_New "no such host");
     ClientConfig := λ info, inr {| tls_info := info |};
     clientv3_New := λ _, None;
     client_Close := λ _, None;
     client_Sync := λ n,
       match n with
       | 0%nat => Some context_DeadlineExceeded
       | 1%nat => Some (errors_New "connection refused")
       | _ => None
       end;
     client_Endpoints := λ c, Endpoints (client_cfg c);
     client_Get := λ _ _ _ _, (Some [], None);
     client_Watch := λ _ _ _ _, [];
     rangeKeys := λ m, (map_to_list m).*1;
     rangeKeys_perm := λ m, reflexivity _ |}.

Lemma WaitForConnection_trace_witness :
  WaitForConnection flakyWorld time_Second (8 * time_Second)%Z 5 running
  = (Ret true,
     {| self := self running;
        trace := [EvSync plainClient syncContext;
                  EvLog (LogSyncTimeout 1000000000%Z);
                  EvSleep 1000000000%Z;
                  EvSync plainClient syncContext;
                  EvLog (LogSyncFailed 2000000000%Z
                           (errors_New "connection refused"));
                  EvSleep 2000000000%Z;
                  EvSync plainClient syncContext;
                  EvLog (LogSynced ["10.0.0.1:2379"])];
        heap := 1; syncs := 3 |}).
Proof.
  apply (WaitForConnection_trace flakyWorld time_Second (8 * time_Second)%Z
           running plainClient
           [context_DeadlineExceeded; errors_New "connection refused"] 5).
  - reflexivity.
  - intros [|[|i]] err Hi; simpl in Hi; by simplify_eq.
  - reflexivity.
  - simpl. lia.
Defined.

Lemma sleeps_attempt cl waitDelay err rest :
  sleeps (attemptEvents cl waitDelay err ++ rest) = waitDelay :: sleeps rest.
Proof. unfold sleeps, attemptEvents. cbn. by destruct (decide _). Qed.

Lemma sleeps_at_max cl maxWaitDelay errs :
  nextDelay maxWaitDelay maxWaitDelay = maxWaitDelay →
  sleeps (failureEvents cl maxWaitDelay maxWaitDelay errs)
  = replicate (length errs) maxWaitDelay.
Proof.
  intros Hmax. induction errs as [|err errs IH]; [done|].
  cbn [failureEvents length replicate].
  by rewrite sleeps_attempt, Hmax, IH.
Qed.

(** X15: The ceiling is only applied after a delay was doubled: when the initial
    delay is above the maximum, the first sleep still lasts the initial
    delay, and every later one lasts the maximum. *)
Theorem first_delay_uncapped w initialWaitDelay maxWaitDelay st cl err errs fuel :
  (0 ≤ maxWaitDelay)%Z →
  (maxWaitDelay < initialWaitDelay)%Z →
  (initialWaitDelay < 2 ^ 62)%Z →
  client (self st) = Some cl →
  (∀ i e, (err :: errs) !! i = Some e →
          client_Sync w (syncs st + i) = Some e) →
  client_Sync w (syncs st + length (err :: errs)) = None →
  (length (err :: errs) < fuel)%nat →
  sleeps (added st
            (WaitForConnection w initialWaitDelay maxWaitDelay fuel st).2)
  = initialWaitDelay :: replicate (length errs) maxWaitDelay.
Proof.
  intros H0 Hlt Hbig Hcl Herrs Hok Hfuel.
  unfold WaitForConnection.
  rewrite (waitLoop_trace w maxWaitDelay cl (err :: errs)) by done.
  cbn [snd]. rewrite added_record. cbn [failureEvents].
  rewrite <- app_assoc, sleeps_attempt. f_equal.
  assert (nextDelay maxWaitDelay initialWaitDelay = maxWaitDelay) as ->.
  { unfold nextDelay, wrap64. rewrite Z.mod_small by lia.
    cbv zeta. destruct (Z.gtb_spec (initialWaitDelay * 2 + 2 ^ 63 - 2 ^ 63)
                          maxWaitDelay); lia. }
  assert (nextDelay maxWaitDelay maxWaitDelay = maxWaitDelay) as Hmax.
  { unfold nextDelay, wrap64. rewrite Z.mod_small by lia.
    cbv zeta. destruct (Z.gtb_spec (maxWaitDelay * 2 + 2 ^ 63 - 2 ^ 63)
                          maxWaitDelay); lia. }
  unfold sleeps. rewrite omap_app. fold (sleeps (failureEvents cl maxWaitDelay
                                                   maxWaitDelay errs)).
  rewrite sleeps_at_max by done. cbn. by rewrite app_nil_r.
Qed.

Lemma first_delay_uncapped_witness :
  sleeps (added running
            (WaitForConnection flakyWorld (8 * time_Second)%Z time_Second 5
               running).2)
  = [(8 * time_Second)%Z; time_Second].
Proof.
  apply (first_delay_uncapped flakyWorld (8 * time_Second)%Z time_Second
           running plainClient context_DeadlineExceeded
           [errors_New "connection refused"] 5).
  - unfold time_Second. lia.
  - unfold time_Second. lia.
  - unfold time_Second. lia.
  - reflexivity.
  - intros [|[|i]] e Hi; simpl in Hi; by simplify_eq.
  - reflexivity.
  - simpl. lia.
Defined.

(** ** More on watching *)

(** The events of [Watch] before the first response is read. *)
Definition watchHeader (cl : Client) (ctx : Context) (key : string)
    (watcher : Watcher) (opts : list OpOption) : list event :=
  [EvLog (LogWaitLeader key);
   EvClientWatch cl (clientv3_WithRequireLeader ctx) key opts;
   EvLog (LogWatchCreated key);
   EvEtcdWatchCreated watcher key].

Lemma Watch_run w st cl ctx key watcher opts :
  client (self st) = Some cl →
  Watch w ctx key watcher opts st
  = (Ret (firstError (client_Watch w cl (clientv3_WithRequireLeader ctx)
                        key opts)),
     addTrace st
       (watchHeader cl ctx key watcher opts
        ++ relayAll watcher
             (client_Watch w cl (clientv3_WithRequireLeader ctx) key opts))).
Proof.
  intros Hcl. unfold Watch, getEtcdClient, getSelf. run_steps.
  cbn [self addTrace]. rewrite Hcl. run_steps.
  rewrite watchLoop_run, addTrace_app. reflexivity.
Qed.

Lemma beforeError_clean ch :
  Forall (λ r, wr_Err r = None) ch →
  beforeError ch = ch ∧ firstError ch = None.
Proof.
  induction 1 as [|r ch Hr _ [IH1 IH2]]; [done|].
  cbn. by rewrite Hr, IH1, IH2.
Qed.

Lemma beforeError_cut ch1 response ch2 err :
  Forall (λ r, wr_Err r = None) ch1 →
  wr_Err response = Some err →
  beforeError (ch1 ++ response :: ch2) = ch1
  ∧ firstError (ch1 ++ response :: ch2) = Some err.
Proof.
  intros Hclean Herr. induction Hclean as [|r ch Hr _ [IH1 IH2]]; cbn.
  - by rewrite Herr.
  - by rewrite Hr, IH1, IH2.
Qed.

(** X16: A response that carries an error ends [Watch] with that error: the
    events of the responses before it are relayed, the events that came in
    the same response as the error are not, and nothing that the stream
    delivers afterwards is read. *)
Theorem Watch_stops_at_error w st cl ctx key watcher opts ch1 response ch2 err :
  client (self st) = Some cl →
  client_Watch w cl (clientv3_WithRequireLeader ctx) key opts
  = ch1 ++ response :: ch2 →
  Forall (λ r, wr_Err r = None) ch1 →
  wr_Err response = Some err →
  Watch w ctx key watcher opts st
  = (Ret (Some err),
     addTrace st
       (watchHeader cl ctx key watcher opts
        ++ concat (relayEvent watcher <$> concat (Events <$> ch1)))).
Proof.
  intros Hcl Hch Hclean Herr. rewrite (Watch_run w st cl) by done.
  unfold relayAll. rewrite Hch.
  destruct (beforeError_cut ch1 response ch2 err Hclean Herr) as [-> ->].
  reflexivity.
Qed.

Lemma Watch_stops_at_error_witness :
  Watch (worldOf true true 0 stream) (context_Caller 1) "/" 5 [] running
  = (Ret (Some (errors_New "etcdserver: no leader")),
     addTrace running
       (watchHeader plainClient (context_Caller 1) "/" 5 []
        ++ [EvEtcdKeyUpdated 5 "/a" "1";
            EvLog (LogUnsupported 7 "/b" "2");
            EvEtcdKeyDeleted 5 "/a"])).
Proof.
  apply (Watch_stops_at_error (worldOf true true 0 stream) running plainClient
           (context_Caller 1) "/" 5%nat []
           [ {| wr_Err := None;
                Events := [ {| Type_ := EventTypePut;
                               Kv := {| Key := "/a"; Value := "1" |} |};
                            {| Type_ := 7;
                               Kv := {| Key := "/b"; Value := "2" |} |};
                            {| Type_ := EventTypeDelete;
                               Kv := {| Key := "/a";
                                        Value := EmptyString |} |} ] |} ]
           {| wr_Err := Some (errors_New "etcdserver: no leader");
              Events := [ {| Type_ := EventTypePut;
                             Kv := {| Key := "/c"; Value := "3" |} |} ] |}
           [ {| wr_Err := None;
                Events := [ {| Type_ := EventTypePut;
                               Kv := {| Key := "/d"; Value := "4" |} |} ] |} ]).
  - reflexivity.
  - reflexivity.
  - by repeat constructor.
  - reflexivity.
Defined.

(** A stream that is closed without an error: [Watch] relays the events of
    all its responses and returns [nil]. *)
Theorem Watch_relays_whole_stream w st cl ctx key watcher opts :
  client (self st) = Some cl →
  Forall (λ r, wr_Err r = None)
         (client_Watch w cl (clientv3_WithRequireLeader ctx) key opts) →
  Watch w ctx key watcher opts st
  = (Ret None,
     addTrace st
       (watchHeader cl ctx key watcher opts
        ++ concat (relayEvent watcher
                     <$> concat (Events
                                   <$> client_Watch w cl
                                         (clientv3_WithRequireLeader ctx)
                                         key opts)))).
Proof.
  intros Hcl Hclean. rewrite (Watch_run w st cl) by done.
  unfold relayAll. by destruct (beforeError_clean _ Hclean) as [-> ->].
Qed.

Definition calmStream : list WatchResponse :=
  [ {| wr_Err := None;
       Events := [ {| Type_ := EventTypePut;
                      Kv := {| Key := "/a"; Value := "1" |} |} ] |};
    {| wr_Err := None; Events := [] |};
    {| wr_Err := None;
       Events := [ {| Type_ := EventTypeDelete;
                      Kv := {| Key := "/a"; Value := EmptyString |} |} ] |} ].

Lemma Watch_relays_whole_stream_witness :
  Watch (worldOf true true 0 calmStream) (context_Caller 1) "/" 5 [] running
  = (Ret None,
     addTrace running
       (watchHeader plainClient (context_Caller 1) "/" 5 []
        ++ [EvEtcdKeyUpdated 5 "/a" "1"; EvEtcdKeyDeleted 5 "/a"])).
Proof.
  apply (Watch_relays_whole_stream (worldOf true true 0 calmStream) running
           plainClient (context_Caller 1) "/" 5%nat []).
  - reflexivity.
  - by repeat constructor.
Defined.

Lemma in_concat {A} (x : A) (ls : list (list A)) :
  x ∈ concat ls → ∃ l, l ∈ ls ∧ x ∈ l.
Proof.
  induction ls as [|l ls IH]; cbn; [by intros ?%elem_of_nil|].
  intros [H|H]%elem_of_app.
  - exists l. split; [left | done].
  - destruct (IH H) as (l' & Hl' & Hx). exists l'. split; [by right | done].
Qed.

Lemma beforeError_sub ch response :
  response ∈ beforeError ch → response ∈ ch.
Proof.
  induction ch as [|r ch IH]; cbn; [done|].
  destruct (wr_Err r); [by intros ?%elem_of_nil|].
  intros [->|H]%elem_of_cons; [left | right; by apply IH].
Qed.

(** An event of the stream that a hook call stands for. *)
Lemma relayAll_origin watcher ch e :
  e ∈ relayAll watcher ch →
  ∃ response ev, response ∈ ch ∧ ev ∈ Events response
                 ∧ e ∈ relayEvent watcher ev.
Proof.
  unfold relayAll. intros (l & Hl & He)%in_concat.
  apply list_elem_of_fmap in Hl as (ev & -> & Hev).
  apply in_concat in Hev as (evs & Hevs & Hev).
  apply list_elem_of_fmap in Hevs as (response & -> & Hr).
  exists response, ev. split; [by apply beforeError_sub|]. done.
Qed.

(** X17: [Watch] invents nothing: every call of [EtcdKeyUpdated] carries the key
    and the value of a Put event that the stream delivered, every call of
    [EtcdKeyDeleted] the key of a Delete event of the stream, and
    [EtcdWatchCreated] the key that is watched; all calls go to the watcher
    given to [Watch], and the receiver is not changed. *)
Theorem Watch_hooks_sound w st cl ctx key watcher opts :
  client (self st) = Some cl →
  let ch := client_Watch w cl (clientv3_WithRequireLeader ctx) key opts in
  let st' := (Watch w ctx key watcher opts st).2 in
  self st' = self st
  ∧ (∀ w' k v, EvEtcdKeyUpdated w' k v ∈ added st st' →
       w' = watcher
       ∧ ∃ response, response ∈ ch
           ∧ {| Type_ := EventTypePut; Kv := {| Key := k; Value := v |} |}
             ∈ Events response)
  ∧ (∀ w' k, EvEtcdKeyDeleted w' k ∈ added st st' →
       w' = watcher
       ∧ ∃ response v, response ∈ ch
           ∧ {| Type_ := EventTypeDelete; Kv := {| Key := k; Value := v |} |}
             ∈ Events response)
  ∧ (∀ w' k, EvEtcdWatchCreated w' k ∈ added st st' →
       w' = watcher ∧ k = key).
Proof.
  intros Hcl ch st'. unfold st'. rewrite (Watch_run w st cl) by done.
  cbn [snd]. rewrite added_addTrace. fold ch. split; [done|].
  unfold watchHeader. split; [|split].
  - intros w' k v [Hin|Hin]%elem_of_app; [split_in|].
    apply relayAll_origin in Hin as (response & ev & Hr & Hev & He).
    unfold relayEvent, hookOf in He. destruct ev as [ty [k' v']]. cbn in *.
    repeat case_decide; apply list_elem_of_singleton in He; simplify_eq.
    split; [done|]. by exists response.
  - intros w' k [Hin|Hin]%elem_of_app; [split_in|].
    apply relayAll_origin in Hin as (response & ev & Hr & Hev & He).
    unfold relayEvent, hookOf in He. destruct ev as [ty [k' v']]. cbn in *.
    repeat case_decide; apply list_elem_of_singleton in He; simplify_eq.
    split; [done|]. by exists response, v'.
  - intros w' k [Hin|Hin]%elem_of_app; [by split_in|].
    apply relayAll_origin in Hin as (response & ev & Hr & Hev & He).
    unfold relayEvent, hookOf in He.
    repeat case_decide; apply list_elem_of_singleton in He; simplify_eq.
Qed.

Lemma Watch_hooks_sound_witness :
  client (self running) = Some plainClient
  ∧ self (Watch (worldOf true true 0 stream) (context_Caller 1) "/" 5 []
            running).2 = self running
  ∧ ∃ response, response ∈ stream
      ∧ {| Type_ := EventTypePut; Kv := {| Key := "/a"; Value := "1" |} |}
        ∈ Events response.
Proof.
  split; [reflexivity|].
  destruct (Watch_hooks_sound (worldOf true true 0 stream) running plainClient
              (context_Caller 1) "/" 5%nat [] eq_refl) as (Hself & Hput & _).
  split; [exact Hself|].
  destruct (Hput 5%nat "/a" "1") as [_ H]; [|exact H].
  assert (added running
            (Watch (worldOf true true 0 stream) (context_Caller 1) "/" 5 []
               running).2 !! 4%nat
          = Some (EvEtcdKeyUpdated 5 "/a" "1")) as Hat
    by (vm_compute; reflexivity).
  by apply list_elem_of_lookup_2 in Hat.
Defined.

(** ** Sequences of operations *)








(** * The test helper [replaceFile]

    [replaceFile] of [grpc_common_test.go] writes a file again and again
    until its modification time differs from the one it had before.  The
    file system is seen through the answers of [os.Stat] and
    [os.WriteFile], by the number of the call; [t.Fatalf] ends the
    function. *)

Module testfs.

Definition time_Millisecond : Duration := 1000000%Z.

(** What [os.Stat] answers (the modification time, or an error) and what
    [os.WriteFile] answers, for the [n]-th call of each. *)
Record FileSystem : Type := {
  os_Stat : nat → error + Z;
  os_WriteFile : nat → option error
}.

Inductive fsEvent : Type :=
| FsStat (filename : string)
| FsWriteFile (filename : string) (data : string) (perm : Z)
| FsSleep (d : Duration)
| FsFatalf (format : string) (filename : string) (err : error).

Record FsState : Type := {
  stats : nat;
  writes : nat;
  fsTrace : list fsEvent
}.

(** How a run ends: the function returned, the test was failed with
    [t.Fatalf], or the loop is still running when the fuel is used up. *)
Inductive outcome : Type :=
| Returned
| Fatal
| Looping.

Definition fsEmit (e : fsEvent) (s : FsState) : FsState :=
  {| stats := stats s; writes := writes s; fsTrace := fsTrace s ++ [e] |}.

Definition doStat (fs : FileSystem) (filename : string) (s : FsState)
  : (error + Z) * FsState :=
  (os_Stat fs (stats s),
   {| stats := S (stats s); writes := writes s;
      fsTrace := fsTrace s ++ [FsStat filename] |}).

Definition doWriteFile (fs : FileSystem) (filename data : string) (perm : Z)
    (s : FsState) : option error * FsState :=
  (os_WriteFile fs (writes s),
   {| stats := stats s; writes := S (writes s);
      fsTrace := fsTrace s ++ [FsWriteFile filename data perm] |}).

(** The [for] loop, for at most [fuel] rounds. *)
Fixpoint replaceLoop (fs : FileSystem) (filename data : string) (perm : Z)
    (oldModTime : Z) (fuel : nat) (s : FsState) : outcome * FsState :=
  match fuel with
  | O => (Looping, s)
  | S fuel' =>
      match doWriteFile fs filename data perm s with
      | (Some err, s) =>
          (Fatal, fsEmit (FsFatalf "can't write file %s: %s" filename err) s)
      | (None, s) =>
          match doStat fs filename s with
          | (inl err, s) =>
              (Fatal,
               fsEmit (FsFatalf "can't stat new file %s: %s" filename err) s)
          | (inr newModTime, s) =>
              if negb (newModTime =? oldModTime)%Z then (Returned, s)
              else
                replaceLoop fs filename data perm oldModTime fuel'
                  (fsEmit (FsSleep time_Millisecond) s)
          end
      end
  end.

Definition replaceFile (fs : FileSystem) (filename data : string) (perm : Z)
    (fuel : nat) (s : FsState) : outcome * FsState :=
  match doStat fs filename s with
  | (inl err, s) =>
      (Fatal, fsEmit (FsFatalf "can't stat old file %s: %s" filename err) s)
  | (inr oldModTime, s) =>
      replaceLoop fs filename data perm oldModTime fuel s
  end.

(** The writes and the sleeps of a trace. *)
Definition is_write (e : fsEvent) : bool :=
  match e with FsWriteFile _ _ _ => true | _ => false end.

Definition is_sleep (e : fsEvent) : bool :=
  match e with FsSleep _ => true | _ => false end.

Definition countWrites (es : list fsEvent) : nat :=
  length (filter (λ e, is_write e = true) es).

Definition countSleeps (es : list fsEvent) : nat :=
  length (filter (λ e, is_sleep e = true) es).

(** The events of [k] rounds that left the modification time as it was. *)
Fixpoint sameRounds (filename data : string) (perm : Z) (k : nat)
  : list fsEvent :=
  match k with
  | O => []
  | S k' =>
      [FsWriteFile filename data perm; FsStat filename;
       FsSleep time_Millisecond]
      ++ sameRounds filename data perm k'
  end.

Lemma replaceLoop_rounds fs filename data perm old k :
  ∀ s fuel,
    (∀ i, (i < k)%nat →
          os_WriteFile fs (writes s + i) = None
          ∧ os_Stat fs (stats s + i) = inr old) →
    replaceLoop fs filename data perm old (k + fuel) s
    = replaceLoop fs filename data perm old fuel
        {| stats := stats s + k; writes := writes s + k;
           fsTrace := fsTrace s ++ sameRounds filename data perm k |}.
Proof.
  induction k as [|k IH]; intros s fuel Hsame.
  - cbn [sameRounds Nat.add]. rewrite !Nat.add_0_r, app_nil_r. by destruct s.
  - destruct (Hsame 0%nat ltac:(lia)) as [Hw Hs].
    rewrite Nat.add_0_r in Hw, Hs.
    cbn [Nat.add replaceLoop]. unfold doWriteFile, doStat.
    rewrite Hw. cbn [stats writes fsTrace]. rewrite Hs, Z.eqb_refl.
    cbn [negb]. rewrite IH.
    + unfold fsEmit. cbn [stats writes fsTrace sameRounds].
      f_equal. f_equal; [lia | lia |]. by rewrite <- !app_assoc.
    + intros i Hi. unfold fsEmit. cbn [stats writes].
      replace (S (writes s) + i)%nat with (writes s + S i)%nat by lia.
      replace (S (stats s) + i)%nat with (stats s + S i)%nat by lia.
      apply Hsame. lia.
Qed.

(** X19: When the file exists, [k] writes leave its modification time as it was
    and the next write changes it, [replaceFile] returns after that write:
    it has written the file [k + 1] times with the same data and mode, has
    looked at the file after every write, and has slept one millisecond
    after each of the first [k] writes. *)
Theorem replaceFile_returns fs filename data perm s old new k fuel :
  os_Stat fs (stats s) = inr old →
  (∀ i, (i < k)%nat →
        os_WriteFile fs (writes s + i) = None
        ∧ os_Stat fs (S (stats s) + i) = inr old) →
  os_WriteFile fs (writes s + k) = None →
  os_Stat fs (S (stats s) + k) = inr new →
  new ≠ old →
  (k < fuel)%nat →
  replaceFile fs filename data perm fuel s
  = (Returned,
     {| stats := S (S (stats s) + k);
        writes := S (writes s + k);
        fsTrace := fsTrace s ++ [FsStat filename]
                   ++ sameRounds filename data perm k
                   ++ [FsWriteFile filename data perm; FsStat filename] |}).
Proof.
  intros Hold Hsame Hw Hs Hne Hfuel.
  unfold replaceFile, doStat. rewrite Hold.
  replace fuel with (k + S (fuel - S k))%nat by lia.
  rewrite replaceLoop_rounds by (cbn [stats writes]; exact Hsame).
  cbn [replaceLoop stats writes fsTrace]. unfold doWriteFile, doStat.
  cbn [stats writes fsTrace]. rewrite Hw, Hs.
  destruct (Z.eqb_spec new old) as [|_]; [done|]. cbn [negb].
  by rewrite <- !app_assoc.
Qed.

(** A file system whose clock is coarse: the first two writes leave the
    modification time at 100, the third one moves it to 101. *)
Definition coarse : FileSystem :=
  {| os_Stat := λ n, if (n <? 3)%nat then inr 100%Z else inr 101%Z;
     os_WriteFile := λ _, None |}.

Definition start : FsState := {| stats := 0; writes := 0; fsTrace := [] |}.

Lemma replaceFile_returns_witness :
  replaceFile coarse "server.crt" "PEM" 420 5 start
  = (Returned,
     {| stats := 4; writes := 3;
        fsTrace := [FsStat "server.crt";
                    FsWriteFile "server.crt" "PEM" 420; FsStat "server.crt";
                    FsSleep time_Millisecond;
                    FsWriteFile "server.crt" "PEM" 420; FsStat "server.crt";
                    FsSleep time_Millisecond;
                    FsWriteFile "server.crt" "PEM" 420; FsStat "server.crt"]
     |}).
Proof.
  apply (replaceFile_returns coarse "server.crt" "PEM" 420%Z start 100%Z 101%Z
           2 5).
  - reflexivity.
  - intros [|[|i]] Hi; [by split | by split | lia].
  - reflexivity.
  - reflexivity.
  - lia.
  - lia.
Defined.

Lemma replaceLoop_returned fs filename data perm old fuel :
  ∀ s s',
    replaceLoop fs filename data perm old fuel s = (Returned, s') →
    (writes s < writes s')%nat
    ∧ (stats s < stats s')%nat
    ∧ os_WriteFile fs (writes s' - 1) = None
    ∧ ∃ new, os_Stat fs (stats s' - 1) = inr new ∧ new ≠ old.
Proof.
  induction fuel as [|fuel IH]; intros s s' Hrun; [done|].
  cbn [replaceLoop] in Hrun. unfold doWriteFile, doStat in Hrun.
  destruct (os_WriteFile fs (writes s)) as [err|] eqn:Hw; [done|].
  cbn [stats writes fsTrace] in Hrun.
  destruct (os_Stat fs (stats s)) as [err|new] eqn:Hs; [done|].
  destruct (Z.eqb_spec new old) as [->|Hne]; cbn [negb] in Hrun.
  - apply IH in Hrun as (H1 & H2 & H3 & H4). cbn [fsEmit stats writes] in *.
    split; [lia|]. split; [lia|]. done.
  - injection Hrun as <-. cbn [stats writes].
    rewrite !Nat.sub_succ, !Nat.sub_0_r.
    split; [lia|]. split; [lia|]. split; [done|]. by exists new.
Qed.

(** X20: [replaceFile] never returns without effect: when it returns, it has
    written the file at least once, its last write succeeded, and the
    modification time it saw last differs from the one the file had at the
    start.  When the file cannot be looked at in the beginning, it fails the
    test without writing anything. *)
Theorem replaceFile_returned_changed fs filename data perm fuel s :
  let run := replaceFile fs filename data perm fuel s in
  (run.1 = Returned →
     (writes s < writes run.2)%nat
     ∧ os_WriteFile fs (writes run.2 - 1) = None
     ∧ ∃ old new,
         os_Stat fs (stats s) = inr old
         ∧ os_Stat fs (stats run.2 - 1) = inr new
         ∧ new ≠ old)
  ∧ (∀ err, os_Stat fs (stats s) = inl err →
       run.1 = Fatal ∧ writes run.2 = writes s
       ∧ countWrites (fsTrace run.2) = countWrites (fsTrace s)).
Proof.
  cbv zeta. unfold replaceFile, doStat. split.
  - destruct (os_Stat fs (stats s)) as [err|old] eqn:Hold; [done|].
    intros Hret.
    destruct (replaceLoop fs filename data perm old fuel _) as [o s'] eqn:Hrun.
    cbn [fst snd] in *. subst o.
    apply replaceLoop_returned in Hrun as (H1 & _ & H3 & new & H4 & H5).
    cbn [stats writes] in *. split; [done|]. split; [done|].
    by exists old, new.
  - intros err ->. cbn [fst snd fsEmit writes fsTrace].
    split; [done|]. split; [done|].
    unfold countWrites. rewrite <- app_assoc, filter_app. cbn.
    by rewrite app_nil_r.
Qed.

(** A file that does not exist. *)
Definition missing : FileSystem :=
  {| os_Stat := λ _, inl (errors_New "no such file or directory");
     os_WriteFile := λ _, None |}.

Lemma replaceFile_returned_changed_witness :
  (writes start
   < writes (replaceFile coarse "server.crt" "PEM" 420 5 start).2)%nat
  ∧ (replaceFile missing "server.crt" "PEM" 420 5 start).1 = Fatal
  ∧ writes (replaceFile missing "server.crt" "PEM" 420 5 start).2 = 0%nat.
Proof.
  destruct (replaceFile_returned_changed coarse "server.crt" "PEM" 420%Z 5
              start) as [Hret _].
  destruct (replaceFile_returned_changed missing "server.crt" "PEM" 420%Z 5
              start) as [_ Hfatal].
  destruct (Hret eq_refl) as (H1 & _).
  destruct (Hfatal (errors_New "no such file or directory") eq_refl)
    as (H2 & H3 & _).
  split; [exact H1|]. split; [exact H2 | exact H3].
Defined.

End testfs.

(** * Incomplete TLS material *)

(** The events that have to do with TLS. *)
Definition about_tls (e : event) : bool :=
  match e with
  | EvClientConfig _ | EvLog (LogTLSDisabled _) => true
  | _ => false
  end.

Lemma cfgLog_no_tls cs config option_ :
  Forall (λ e, about_tls e = false) (cfgLog cs config option_).
Proof. unfold cfgLog. case_match; by repeat constructor. Qed.

Lemma resolveTrace_no_tls cs config :
  Forall (λ e, about_tls e = false) (resolveTrace cs config).
Proof.
  unfold resolveTrace, srvCalls.
  repeat first [ apply Forall_app; split | apply cfgLog_no_tls | case_match
               | by repeat constructor ].
Qed.

(** X5: When one of the options [clientkey], [clientcert] and [cacert] is
    empty, [load] ignores the other two without a word: it builds no TLS
    configuration, logs nothing about TLS, and every client it creates is
    without TLS. *)
Theorem incomplete_tls_ignored w config ignoreErrors st r st' :
  load w config ignoreErrors st = (r, st') →
  cfgValue (compatSection (self st)) config "clientkey" = EmptyString
  ∨ cfgValue (compatSection (self st)) config "clientcert" = EmptyString
  ∨ cfgValue (compatSection (self st)) config "cacert" = EmptyString →
  Forall (λ e, about_tls e = false) (added st st')
  ∧ (∀ cfg, EvNew cfg ∈ added st st' → TLS cfg = None).
Proof.
  intros Hload Hempty.
  assert (tlsFiles (compatSection (self st)) config = None) as Hfiles.
  { unfold tlsFiles.
    destruct Hempty as [ -> | [ -> | -> ] ]; cbn; rewrite ?andb_false_r; done. }
  assert (tlsEnabled w (compatSection (self st)) config = None) as Hen
    by (unfold tlsEnabled; by rewrite Hfiles).
  assert (∀ b, Forall (λ e, about_tls e = false)
                 (tlsTrace w (compatSection (self st)) config b)) as Htls.
  { intros b. unfold tlsTrace, tlsCalls, tlsError. rewrite Hfiles.
    repeat first [ apply Forall_app; split | apply cfgLog_no_tls
                 | by repeat constructor ]. }
  split.
  - pose proof (load_run w config ignoreErrors st) as P. rewrite Hload in P.
    inversion P; subst; rewrite ?added_addTrace, ?added_record;
      repeat first [ apply resolveTrace_no_tls | apply Htls
                   | apply Forall_app; split
                   | apply Forall_cons; split; [done|]
                   | apply Forall_nil
                   | (apply Forall_fmap, Forall_true; done)
                   | match goal with
                     | |- context [closePrev ?s] =>
                         unfold closePrev; destruct (client (self s))
                     | |- context [if ?b then _ else _] => destruct b
                     end ].
    all: exact I.
  - intros cfg Hin. rewrite (load_new_config _ _ _ _ _ _ _ Hload Hin).
    exact Hen.
Qed.

Definition halfTlsConfig : ConfigFile :=
  configOf [("etcd", "endpoints", "10.0.0.1:2379");
            ("etcd", "clientkey", "client.key");
            ("etcd", "clientcert", "client.crt")].

Lemma incomplete_tls_ignored_witness :
  load (worldOf false true 0 []) halfTlsConfig false fresh
  = (Ret None,
     {| self := {| compatSection := EmptyString; client := Some plainClient;
                   listeners := None |};
        trace := [EvNew (client_cfg plainClient); EvStore plainClient;
                  EvLog (LogUsing ["10.0.0.1:2379"]); EvLock; EvUnlock];
        heap := 1; syncs := 0 |})
  ∧ Forall (λ e, about_tls e = false)
      (added fresh (load (worldOf false true 0 []) halfTlsConfig false fresh).2).
Proof.
  split; [reflexivity|].
  apply (incomplete_tls_ignored (worldOf false true 0 []) halfTlsConfig false
           fresh (load (worldOf false true 0 []) halfTlsConfig false fresh).1);
    [by destruct (load _ _ _ _) | by right; right].
Defined.
